(** * godoo: session, call and error-classification layer

    A shallow embedding of the Go client library [godoo] (errors.go,
    types.go, client.go, crud.go) and the properties of its session
    manager, error classifier and typed helpers.

    Conventions of the embedding:
    - a Go [string] is a Stdlib [string] (a sequence of bytes);
    - [int], [int64] and [time.Duration] are [Z] (64-bit platform);
    - a Go slice is [option (list A)], [None] being the nil slice;
    - a Go [error] value is [option error], [None] being nil;
    - a Go map is a [gmap];
    - the transport, the clock and the context are an environment
      ([Env]) that is asked at every interaction, and every remote
      interaction is recorded in a trace. *)

From Stdlib Require Import ZArith Ascii String List.
From stdpp Require Import base option list gmap strings fin_maps.

Set Warnings "-register-all".

Local Open Scope string_scope.
Local Open Scope Z_scope.

(** ** Package [strings], [strconv] and [regexp], as far as errors.go uses them *)

Module GoStrings.

(** [strings.HasPrefix]. *)
Fixpoint HasPrefix (s prefix : string) {struct prefix} : bool :=
  match prefix, s with
  | EmptyString, _ => true
  | String _ _, EmptyString => false
  | String p ps, String c cs => if Ascii.eqb c p then HasPrefix cs ps else false
  end.

(** [s[n:]] for [n <= len(s)]. *)
Fixpoint dropBytes (n : nat) (s : string) : string :=
  match n, s with
  | O, _ => s
  | S _, EmptyString => EmptyString
  | S n', String _ cs => dropBytes n' cs
  end.

(** [strings.TrimPrefix]. *)
Definition TrimPrefix (s prefix : string) : string :=
  if HasPrefix s prefix then dropBytes (String.length prefix) s else s.

(** [strings.Contains]: [substr] occurs at some offset of [s]. *)
Fixpoint Contains (s substr : string) : bool :=
  if HasPrefix s substr then true
  else match s with
       | EmptyString => false
       | String _ cs => Contains cs substr
       end.

Definition isDigit (c : ascii) : bool :=
  let n := nat_of_ascii c in (48 <=? n)%nat && (n <=? 57)%nat.

Definition digitVal (c : ascii) : Z := Z.of_nat (nat_of_ascii c) - 48.

(** The value of a run of decimal digits, [None] on any other byte or on
    the empty string. *)
Fixpoint digitsValue (acc : Z) (s : string) : option Z :=
  match s with
  | EmptyString => Some acc
  | String c cs =>
      if isDigit c then digitsValue (acc * 10 + digitVal c) cs else None
  end.

Definition maxInt : Z := 2 ^ 63 - 1.
Definition minInt : Z := - 2 ^ 63.

(** [strconv.Atoi]: an optional sign, at least one digit, nothing else,
    and the value must fit an [int]; [None] is the non-nil error. *)
Definition Atoi (s : string) : option Z :=
  let '(neg, body) :=
    match s with
    | String "-" cs => (true, cs)
    | String "+" cs => (false, cs)
    | _ => (false, s)
    end in
  match body with
  | EmptyString => None
  | _ =>
      match digitsValue 0 body with
      | None => None
      | Some v =>
          let v' := if neg then - v else v in
          if (minInt <=? v') && (v' <=? maxInt) then Some v' else None
      end
  end.

(** The longest prefix of decimal digits, and what follows it. *)
Fixpoint spanDigits (s : string) : string * string :=
  match s with
  | EmptyString => (EmptyString, EmptyString)
  | String c cs =>
      if isDigit c
      then let '(d, r) := spanDigits cs in (String c d, r)
      else (EmptyString, s)
  end.

(** The lazy group [(.*?)] followed by a quote: the bytes up to the first
    quote, provided no line feed comes before it ([.] does not match a
    line feed). *)
Fixpoint lazyUntilQuote (s : string) : option string :=
  match s with
  | EmptyString => None
  | String c cs =>
      if Ascii.eqb c "'" then Some EmptyString
      else if Ascii.eqb c "010" then None
      else match lazyUntilQuote cs with
           | Some m => Some (String c m)
           | None => None
           end
  end.

(** The regular expression [Fault (\d+): '(.*?)'] anchored at the start
    of [s]: its two groups.  The greedy [\d+] must take the whole run of
    digits, since the byte after it has to be a colon. *)
Definition matchFaultHere (s : string) : option (string * string) :=
  if HasPrefix s "Fault " then
    let '(digits, rest) := spanDigits (dropBytes 6 s) in
    match digits with
    | EmptyString => None
    | _ =>
        if HasPrefix rest ": '" then
          match lazyUntilQuote (dropBytes 3 rest) with
          | Some m => Some (digits, m)
          | None => None
          end
        else None
    end
  else None.

(** [re.FindStringSubmatch(s)] for that expression: the groups of the
    leftmost match; [None] is the nil slice, [Some] a slice of length 3. *)
Fixpoint FindFaultSubmatch (s : string) : option (string * string) :=
  match matchFaultHere s with
  | Some g => Some g
  | None =>
      match s with
      | EmptyString => None
      | String _ cs => FindFaultSubmatch cs
      end
  end.

End GoStrings.
Export GoStrings.

(** ** errors.go *)

(** The package-level error values, made by [errors.New] and compared by
    identity, and the two of package [context]. *)
Inductive Sentinel :=
  | ErrAuthenticationFailed
  | ErrRecordNotFound
  | ErrInvalidModel
  | ErrInvalidMethod
  | ErrOdooRPC
  | ErrInvalidResponse
  | ContextCanceled
  | ContextDeadlineExceeded.

#[global] Instance Sentinel_eq_dec : EqDecision Sentinel.
Proof. solve_decision. Defined.

Definition sentinelText (s : Sentinel) : string :=
  match s with
  | ErrAuthenticationFailed => "godoo: authentication failed"
  | ErrRecordNotFound => "godoo: no record found for the given criteria"
  | ErrInvalidModel => "godoo: invalid Odoo model"
  | ErrInvalidMethod => "godoo: invalid Odoo method for the model"
  | ErrOdooRPC => "godoo: Odoo XML-RPC call failed"
  | ErrInvalidResponse => "invalid Odoo RPC response"
  | ContextCanceled => "context canceled"
  | ContextDeadlineExceeded => "context deadline exceeded"
  end.

(** A non-nil [error].
    - [ESentinel]: one of the package-level values;
    - [EForeign]: an error made outside the repository (the transport,
      net/http), of which only the text is used;
    - [EErrorf]: the result of [fmt.Errorf]: its formatted text and the
      operands of its [%w] verbs, in order;
    - [EOdooRPC]: a [*OdooRPCError]. *)
Inductive error :=
  | ESentinel (s : Sentinel)
  | EForeign (msg : string)
  | EErrorf (msg : string) (wrapped : list error)
  | EOdooRPC (OriginalError : option error) (Code : Z) (Message : string).

(** The method [Error()]. *)
Fixpoint Error (e : error) : string :=
  match e with
  | ESentinel s => sentinelText s
  | EForeign msg => msg
  | EErrorf msg _ => msg
  | EOdooRPC (Some o) _ m =>
      sentinelText ErrOdooRPC +:+ ": " +:+ m +:+ " (original: " +:+ Error o +:+ ")"
  | EOdooRPC None _ m =>
      sentinelText ErrOdooRPC +:+ ": " +:+ m
  end.

(** [errors.Is(e, target)] for a sentinel target: the chain of [Unwrap]
    is followed, through every operand of a multi-[%w] error. *)
Fixpoint errorsIs (e : error) (target : Sentinel) : bool :=
  match e with
  | ESentinel s => bool_decide (s = target)
  | EForeign _ => false
  | EErrorf _ ws =>
      (fix any_is (l : list error) : bool :=
         match l with
         | [] => false
         | w :: l' => errorsIs w target || any_is l'
         end) ws
  | EOdooRPC (Some o) _ _ => errorsIs o target
  | EOdooRPC None _ _ => false
  end.

(** [errors.As(e, &odooErr)] with [odooErr *OdooRPCError]: the first
    [*OdooRPCError] of the chain, as (OriginalError, Code, Message). *)
Fixpoint errorsAsOdooRPC (e : error) : option (option error * Z * string) :=
  match e with
  | ESentinel _ => None
  | EForeign _ => None
  | EErrorf _ ws =>
      (fix first_as (l : list error) : option (option error * Z * string) :=
         match l with
         | [] => None
         | w :: l' =>
             match errorsAsOdooRPC w with
             | Some r => Some r
             | None => first_as l'
             end
         end) ws
  | EOdooRPC o c m => Some (o, c, m)
  end.

(** [e] is reachable from [r] by [Unwrap]: [r] wraps the value [e]. *)
Fixpoint unwrapsTo (r e : error) : Prop :=
  match r with
  | ESentinel _ => False
  | EForeign _ => False
  | EErrorf _ ws =>
      (fix some_w (l : list error) : Prop :=
         match l with
         | [] => False
         | w :: l' => w = e \/ unwrapsTo w e \/ some_w l'
         end) ws
  | EOdooRPC (Some o) _ _ => o = e \/ unwrapsTo o e
  | EOdooRPC None _ _ => False
  end.

(** The first half of parseOdooRPCError: the fault code and the fault
    message taken from the text of the error. *)
Definition extractFault (errMsg : string) : Z * string :=
  match FindFaultSubmatch errMsg with
  | Some (g1, g2) =>
      (match Atoi g1 with Some code => code | None => 0 end, g2)
  | None =>
      if HasPrefix errMsg "XML-RPC fault: "
      then (0, TrimPrefix errMsg "XML-RPC fault: ")
      else (0, errMsg)
  end.

Definition isInvalidModelMessage (faultMessage : string) : bool :=
  Contains faultMessage "The model does not exist"
  || Contains faultMessage "No model named"
  || Contains faultMessage "not found in registry"
  || (Contains faultMessage "'object' object has no attribute"
      && Contains faultMessage "model").

Definition isInvalidMethodMessage (faultMessage : string) : bool :=
  Contains faultMessage "Object has no method"
  || Contains faultMessage "method does not exist"
  || (Contains faultMessage "missing 1 required positional argument"
      && Contains faultMessage "self").

(** [fmt.Errorf("%w: %s (original: %w)", sentinel, faultMessage, err)]. *)
Definition errorfClassified (s : Sentinel) (faultMessage : string) (err : error) : error :=
  EErrorf (sentinelText s +:+ ": " +:+ faultMessage +:+ " (original: " +:+ Error err +:+ ")")
          [ESentinel s; err].

Definition parseOdooRPCError (err : option error) : option error :=
  match err with
  | None => None
  | Some err =>
      let errMsg := Error err in
      let '(faultCode, faultMessage) := extractFault errMsg in
      if isInvalidModelMessage faultMessage then
        Some (errorfClassified ErrInvalidModel faultMessage err)
      else if isInvalidMethodMessage faultMessage then
        Some (errorfClassified ErrInvalidMethod faultMessage err)
      else
        Some (EOdooRPC (Some err) faultCode faultMessage)
  end.

(** ** types.go *)

(** A value of type [interface{}], as far as the library builds or reads
    them.  The constructor records the dynamic type. *)
Inductive any :=
  | ANil
  | ABool (b : bool)
  | AInt (n : Z)                                   (* int, int64 *)
  | AString (s : string)
  | ASlice (l : option (list any))                 (* []interface{} *)
  | AInts (l : option (list Z))                    (* []int64 *)
  | AStrings (l : option (list string))            (* []string *)
  | AMap (m : gmap string any)                     (* map[string]interface{} *)
  | AMaps (l : option (list (gmap string any)))    (* []map[string]interface{} *)
  | AContext (m : gmap string any)                 (* OdooContext *)
  | ACondition (c : option (list any)).            (* DomainCondition *)

(** [len] and [append] of a slice. *)
Definition len {A} (s : option (list A)) : Z :=
  match s with
  | None => 0
  | Some l => Z.of_nat (length l)
  end.

Definition append {A} (s : option (list A)) (x : A) : option (list A) :=
  match s with
  | None => Some [x]
  | Some l => Some (l ++ [x])%list
  end.

Definition elems {A} (s : option (list A)) : list A :=
  match s with
  | None => []
  | Some l => l
  end.

Definition Model := string.

Definition DomainCondition := option (list any).
Definition Domain := option (list DomainCondition).

(** One turn of the loop of [Domain.ToRPC]. *)
Definition Domain_ToRPC_step (rpcDomain : option (list any)) (cond : DomainCondition)
  : option (list any) :=
  if len cond =? 1 then
    match cond with
    | Some (AString op :: _) => append rpcDomain (AString op)
    | _ => append rpcDomain (ACondition cond)
    end
  else append rpcDomain (ACondition cond).

Definition Domain_ToRPC (d : Domain) : option (list any) :=
  match d with
  | None => Some []
  | Some conds => fold_left Domain_ToRPC_step conds None
  end.

Definition Fields := option (list string).
Definition Fields_ToRPC (f : Fields) : option (list string) := f.

Record Options := {
  Context : gmap string any;
  Limit : Z;
  Offset : Z;
  Order : string;
  Extra : gmap string any;
}.

(** [Options.ToRPC], on a pointer receiver that may be nil. *)
Definition Options_ToRPC (o : option Options) : gmap string any :=
  match o with
  | None => ∅
  | Some o =>
      let rpcOptions : gmap string any := ∅ in
      let rpcOptions :=
        if (0 <? Z.of_nat (size (Context o)))
        then <["context" := AContext (Context o)]> rpcOptions else rpcOptions in
      let rpcOptions :=
        if 0 <? Limit o then <["limit" := AInt (Limit o)]> rpcOptions else rpcOptions in
      let rpcOptions :=
        if 0 <? Offset o then <["offset" := AInt (Offset o)]> rpcOptions else rpcOptions in
      let rpcOptions :=
        if negb (String.eqb (Order o) "")
        then <["order" := AString (Order o)]> rpcOptions else rpcOptions in
      Extra o ∪ rpcOptions
  end.

Definition Data := gmap string any.
Definition Data_ToRPC (d : Data) : gmap string any := d.

(** [parseOptions(options ...*Options)]. *)
Definition parseOptions (options : list (option Options)) : gmap string any :=
  match options with
  | [] => ∅
  | None :: _ => ∅
  | Some o :: _ => Options_ToRPC (Some o)
  end.

(** ** client.go: the session *)

(** [time.Time] as an instant in nanoseconds, [time.Duration] as a
    64-bit count of nanoseconds. *)
Definition Time := Z.
Definition Duration := Z.

Definition maxDuration : Duration := 2 ^ 63 - 1.
Definition minDuration : Duration := - 2 ^ 63.

(** [t.Sub(u)]: the difference, held at the largest or smallest
    [Duration] when it does not fit. *)
Definition Sub (t u : Time) : Duration :=
  Z.max minDuration (Z.min maxDuration (t - u)).

(** [time.Since(t)] when the clock reads [now]. *)
Definition Since (now t : Time) : Duration := Sub now t.

(** What [httpClient.Transport] holds, and the [*http.Transport] handed
    to [xmlrpc.NewClient]. *)
Inductive RoundTripper :=
  | RoundTripperNil
  | RoundTripperHTTP (id : nat)
  | RoundTripperOther.

Inductive Transport :=
  | DefaultTransport
  | CustomTransport (id : nat).

(** An [*xmlrpc.Client]: the endpoint it was made for, its transport, and
    the moment it was made, which tells two clients apart. *)
Record Client := {
  endpoint : string;
  transport : Transport;
  madeAt : nat;
}.

Record OdooClient := {
  url : string;
  db : string;
  username : string;
  password : string;
  uid : Z;
  rpcClient : option Client;
  lastAuth : Time;
  authTimeout : Duration;
  skipTLSVerify : bool;
  httpTransport : RoundTripper;
}.

Definition withSession (c : OdooClient) (u : Z) (rc : option Client) (t : Time) : OdooClient :=
  {| url := url c; db := db c; username := username c; password := password c;
     uid := u; rpcClient := rc; lastAuth := t;
     authTimeout := authTimeout c; skipTLSVerify := skipTLSVerify c;
     httpTransport := httpTransport c |}.

Definition withRpcClient (c : OdooClient) (rc : option Client) : OdooClient :=
  withSession c (uid c) rc (lastAuth c).

(** [isAuthValid], when the clock reads [now]. *)
Definition isAuthValid (now : Time) (c : OdooClient) : bool :=
  negb (uid c =? 0)
  && bool_decide (rpcClient c <> None)
  && (Since now (lastAuth c) <? authTimeout c).

(** What the library does to the outside, in order.  [EvCall] is a call
    that has completed when it is recorded; [EvCallInFlight] is a call
    made in a goroutine that the caller stopped waiting for: it had not
    completed when the caller went on. *)
Inductive Event :=
  | EvNewClient (url : string) (tr : Transport)
  | EvClose (c : Client)
  | EvCall (c : Client) (method : string) (args : any)
  | EvCallInFlight (c : Client) (method : string) (args : any).

(** The outside: the context, the clock and the transport, asked at a
    moment (the number of interactions so far).
    - [ctxErr n]: [ctx.Err()], non-nil exactly when [ctx.Done()] is closed;
    - [now n]: [time.Now()];
    - [newClient n url tr]: the error of [xmlrpc.NewClient], if any;
    - [call n c method args]: the error of [c.Call], or the value it
      decodes into the reply variable;
    - [ctxFirst n]: whether a [select] over [ctx.Done()] and the channel of
      a call takes the context when it is done;
    - [callDone n]: whether the call made in the goroutine had completed
      when that [select] took the context. *)
Record Env := {
  ctxErr : nat -> option error;
  now : nat -> Time;
  newClient : nat -> string -> Transport -> option error;
  call : nat -> Client -> string -> any -> error + any;
  ctxFirst : nat -> bool;
  callDone : nat -> bool;
}.

Record State := {
  client : OdooClient;
  clock : nat;
  trace : list Event;
}.

(** The result of running a method: a value and the state after it, or a
    run-time panic. *)
Inductive Res (A : Type) :=
  | Ok (a : A) (s : State)
  | Panic.
Arguments Ok {A} a s.
Arguments Panic {A}.

Definition M (A : Type) : Type := State -> Res A.

#[global] Instance M_ret : MRet M := fun A a s => Ok a s.

#[global] Instance M_bind : MBind M := fun A B k m s =>
  match m s with
  | Ok a s' => k a s'
  | Panic => Panic
  end.

Definition ret {A} (a : A) : M A := mret a.

Definition panic {A} : M A := fun _ => Panic.

Definition getClient : M OdooClient := fun s => Ok (client s) s.

Definition setClient (c : OdooClient) : M unit :=
  fun s => Ok tt {| client := c; clock := clock s; trace := trace s |}.

(** An interaction: the clock moves on, the event (if any) is recorded. *)
Definition interact (ev : list Event) (s : State) : State :=
  {| client := client s; clock := S (clock s); trace := (trace s ++ ev)%list |}.

(** The [*http.Transport] that [authenticate] takes from the HTTP client:
    its own when it is one, the default one otherwise. *)
Definition transportOf (c : OdooClient) : Transport :=
  match httpTransport c with
  | RoundTripperNil => DefaultTransport
  | RoundTripperHTTP id => CustomTransport id
  | RoundTripperOther => DefaultTransport
  end.

Definition commonURL (c : OdooClient) : string := url c +:+ "/xmlrpc/2/common".
Definition objectURL (c : OdooClient) : string := url c +:+ "/xmlrpc/2/object".

(** The arguments of the remote procedure [authenticate]. *)
Definition authenticateArgs (c : OdooClient) : any :=
  ASlice (Some [AString (db c); AString (username c); AString (password c); AMap ∅]).

(** [fmt.Errorf("%w: %s", ErrAuthenticationFailed, err.Error())]. *)
Definition errorfAuthenticationFailed (err : error) : error :=
  EErrorf (sentinelText ErrAuthenticationFailed +:+ ": " +:+ Error err)
          [ESentinel ErrAuthenticationFailed].

(** A call that was handed to a goroutine: the handle, the remote
    procedure, its arguments, and what the call gives once it completes
    (its error, or the value it decodes into the reply variable). *)
Record InFlight := {
  callee : Client;
  procedure : string;
  arguments : any;
  callErr : error + any;
}.

(** The case that a [select] over [ctx.Done()] and [callChan] takes: the
    channel of the call, or the context with [ctx.Err()]; [finished]
    tells whether the call had completed by then. *)
Inductive Selected :=
  | FromCall
  | FromContext (e : error) (finished : bool).

(** What the reply variable holds once the call has completed: the
    decoded value, or what it held before when the call failed. *)
Definition decoded (reply : any) (r : error + any) : any :=
  match r with
  | inl _ => reply
  | inr v => v
  end.

Section WithEnv.
Variable env : Env.

(** [select { case <-ctx.Done(): ... ctx.Err() ...; default: }]. *)
Definition ctxPoll : M (option error) :=
  fun s => Ok (ctxErr env (clock s)) (interact [] s).

(** [ctx.Err()]. *)
Definition ctxErrNow : M (option error) :=
  fun s => Ok (ctxErr env (clock s)) s.

(** [time.Now()]. *)
Definition timeNow : M Time := fun s => Ok (now env (clock s)) s.

(** [xmlrpc.NewClient(url, tr)]. *)
Definition NewClient (u : string) (tr : Transport) : M (error + Client) :=
  fun s =>
    Ok (match newClient env (clock s) u tr with
        | Some e => inl e
        | None => inr {| endpoint := u; transport := tr; madeAt := clock s |}
        end)
       (interact [EvNewClient u tr] s).

(** [c.Close()]. *)
Definition Close (c : Client) : M unit :=
  fun s => Ok tt (interact [EvClose c] s).

(** [c.Call(method, args, reply)]; a nil receiver panics. *)
Definition Call (c : option Client) (method : string) (args : any) : M (error + any) :=
  match c with
  | None => panic
  | Some c => fun s => Ok (call env (clock s) c method args) (interact [EvCall c method args] s)
  end.

(** [go func() { callErr := c.Call(method, args, reply); callChan <- callErr }()]:
    the call leaves in a goroutine of its own; [callErr] is what it gives
    once it completes.  A nil receiver panics in that goroutine, which
    ends the program. *)
Definition Go (c : option Client) (method : string) (args : any) : M InFlight :=
  match c with
  | None => panic
  | Some c =>
      fun s =>
        Ok {| callee := c; procedure := method; arguments := args;
              callErr := call env (clock s) c method args |}
           (interact [] s)
  end.

(** The [select] that waits for [ctx.Done()] and for [callChan].  The case
    of the channel is taken once the call has completed.  The case of the
    context is taken with the call completed or still in flight; nothing
    waits for it then. *)
Definition Select (g : InFlight) : M Selected :=
  fun s =>
    match ctxErr env (clock s) with
    | Some e =>
        if ctxFirst env (clock s)
        then if callDone env (clock s)
             then Ok (FromContext e true)
                     (interact [EvCall (callee g) (procedure g) (arguments g)] s)
             else Ok (FromContext e false)
                     (interact [EvCallInFlight (callee g) (procedure g) (arguments g)] s)
        else Ok FromCall (interact [EvCall (callee g) (procedure g) (arguments g)] s)
    | None => Ok FromCall (interact [EvCall (callee g) (procedure g) (arguments g)] s)
    end.

(** The reply variable [uid int64] after a successful call. *)
Definition replyInt64 (v : any) : Z :=
  match v with
  | AInt n => n
  | _ => 0
  end.

Definition authenticate : M (option error) :=
  done ← ctxPoll;
  match done with
  | Some e => ret (Some e)
  | None =>
      c ← getClient;
      let tr := transportOf c in
      r ← NewClient (commonURL c) tr;
      match r with
      | inl err =>
          ret (Some (EErrorf ("failed to connect to Odoo common endpoint: " +:+ Error err) [err]))
      | inr commonRPCClient =>
          (* the deferred [commonRPCClient.Close()] runs on every return below *)
          result ←
            (r ← Call (Some commonRPCClient) "authenticate" (authenticateArgs c);
             match r with
             | inl err =>
                 ret (Some (errorfAuthenticationFailed err))
             | inr v =>
                 let uid := replyInt64 v in
                 done ← ctxPoll;
                 match done with
                 | Some e => ret (Some e)
                 | None =>
                     r ← NewClient (objectURL c) tr;
                     match r with
                     | inl err =>
                         ret (Some (EErrorf ("failed to connect to Odoo object endpoint: "
                                             +:+ Error err) [err]))
                     | inr objectRPCClient =>
                         t ← timeNow;
                         c ← getClient;
                         setClient (withSession c uid (Some objectRPCClient) t) ;;
                         ret None
                     end
                 end
             end);
          Close commonRPCClient ;;
          ret result
      end
  end.

(** The start of the re-authentication in [getConnection]: a handle that
    is still there is closed and forgotten. *)
Definition closeStale (c : OdooClient) : M unit :=
  match rpcClient c with
  | Some rc => Close rc ;; setClient (withRpcClient c None)
  | None => ret tt
  end.

Definition getConnection : M (Z * option Client * option error) :=
  done ← ctxPoll;
  match done with
  | Some e => ret (0, None, Some e)
  | None =>
      c ← getClient;
      t ← timeNow;
      err ← (if negb (isAuthValid t c) then closeStale c ;; authenticate
             else ret None);
      match err with
      | Some e => ret (0, None, Some e)
      | None => c ← getClient; ret (uid c, rpcClient c, None)
      end
  end.

End WithEnv.

(** ** crud.go: the call executor and the typed helpers *)

Section Crud.
Variable env : Env.

(** [fmt.Errorf("failed to call Odoo method '%s' on model '%s': %w", ...)]. *)
Definition errorfCallFailed (method model : string) (err : error) : error :=
  EErrorf ("failed to call Odoo method '" +:+ method +:+ "' on model '" +:+ model
           +:+ "': " +:+ Error err) [err].

(** [executeRPC].  [reply] is what the reply variable holds before the
    call; the second component of the result is what it holds when the
    method returns.  The goroutine makes the blocking call and writes the
    reply variable when the call completes; the [select] takes either the
    context or the channel of the call.  When it takes the context,
    nothing waits for the goroutine: the reply variable holds the decoded
    value only if the call had completed. *)
Definition executeRPC (model method : string) (args : option (list any))
    (options : gmap string any) (reply : any) : M (option error * any) :=
  '(uid, rpcClient, err) ← getConnection env;
  match err with
  | Some e => ret (Some e, reply)
  | None =>
      c ← getClient;
      let callArgs :=
        Some [AString (db c); AInt uid; AString (password c);
              AString model; AString method; ASlice args] in
      let callArgs :=
        if 0 <? Z.of_nat (size options)
        then append callArgs (AMap options)
        else append callArgs (AMap ∅) in
      g ← Go env rpcClient "execute_kw" (ASlice callArgs);
      sel ← Select env g;
      match sel with
      | FromContext e finished =>
          ret (Some e, if finished then decoded reply (callErr g) else reply)
      | FromCall =>
          match callErr g with
          | inl err => ret (parseOdooRPCError (Some (errorfCallFailed method model err)), reply)
          | inr v => ret (None, v)
          end
      end
  end.

Definition replyMaps (v : any) : option (list (gmap string any)) :=
  match v with
  | AMaps l => l
  | _ => None
  end.

Definition replyBool (v : any) : bool :=
  match v with
  | ABool b => b
  | _ => false
  end.

Definition Read (model : Model) (ids : option (list Z)) (fields : Fields)
    (options : list (option Options))
  : M (option (list (gmap string any)) * option error) :=
  if len ids =? 0 then ret (Some [], None)
  else
    '(err, records) ← executeRPC model "read"
                        (Some [AInts ids; AStrings (Fields_ToRPC fields)])
                        (parseOptions options) (AMaps None);
    match err with
    | Some e => ret (None, Some e)
    | None => ret (replyMaps records, None)
    end.

Definition ReadWithLimit (model : Model) (ids : option (list Z)) (fields : Fields)
    (options : option Options)
  : M (option (list (gmap string any)) * option error) :=
  if len ids =? 0 then ret (Some [], None)
  else
    let options :=
      match options with
      | None => {| Context := ∅; Limit := 0; Offset := 0; Order := ""; Extra := ∅ |}
      | Some o => o
      end in
    '(err, records) ← executeRPC model "read"
                        (Some [AInts ids; AStrings (Fields_ToRPC fields)])
                        (Options_ToRPC (Some options)) (AMaps None);
    match err with
    | Some e => ret (None, Some e)
    | None => ret (replyMaps records, None)
    end.

Definition Update (model : Model) (ids : option (list Z)) (data : Data)
    (options : list (option Options)) : M (bool * option error) :=
  if len ids =? 0
  then ret (false, Some (EErrorf "godoo: no record IDs provided for update" []))
  else
    '(err, success) ← executeRPC model "write"
                        (Some [AInts ids; AMap (Data_ToRPC data)])
                        (parseOptions options) (ABool false);
    match err with
    | Some e => ret (false, Some e)
    | None => ret (replyBool success, None)
    end.

Definition Delete (model : Model) (ids : option (list Z))
    (options : list (option Options)) : M (bool * option error) :=
  if len ids =? 0
  then ret (false, Some (EErrorf "godoo: no record IDs provided for deletion" []))
  else
    '(err, success) ← executeRPC model "unlink"
                        (Some [AInts ids])
                        (parseOptions options) (ABool false);
    match err with
    | Some e => ret (false, Some e)
    | None => ret (replyBool success, None)
    end.

(** The body of one goroutine of [UpdateMultiple]: what it sends on
    [resultsChan]. *)
Definition updateTask (model : Model) (parsedOptions : gmap string any)
    (recordID : Z) (recordData : Data) : M (Z * option error) :=
  '(err, _) ← executeRPC model "write"
                (Some [AInts (Some [recordID]); AMap (Data_ToRPC recordData)])
                parsedOptions (ABool false);
  ret (recordID, err).

(** The goroutines, each run to its end, in the order [tasks]; the list
    is [resultsChan] once it is closed. *)
Fixpoint runTasks (model : Model) (parsedOptions : gmap string any)
    (tasks : list (Z * Data)) : M (list (Z * option error)) :=
  match tasks with
  | [] => ret []
  | (id, data) :: rest =>
      res ← updateTask model parsedOptions id data;
      results ← runTasks model parsedOptions rest;
      ret (res :: results)
  end.

(** The loop over [resultsChan] that fills [failedUpdates]. *)
Definition collectFailures (results : list (Z * option error)) : gmap Z error :=
  fold_left
    (fun failedUpdates res =>
       match res.2 with
       | Some e => <[res.1 := e]> failedUpdates
       | None => failedUpdates
       end)
    results ∅.

(** [UpdateMultiple].  [order] is the order in which the goroutines run:
    one per entry of [idDataMap].  The returned map is [None] when nil. *)
Definition UpdateMultiple (model : Model) (idDataMap : gmap Z Data)
    (options : list (option Options)) (order : list (Z * Data))
  : M (option (gmap Z error) * option error) :=
  if Z.of_nat (size idDataMap) =? 0 then ret (Some ∅, None)
  else
    let parsedOptions := parseOptions options in
    results ← runTasks model parsedOptions order;
    let failedUpdates := collectFailures results in
    e ← ctxErrNow env;
    match e with
    | Some e => ret (None, Some e)
    | None => ret (Some failedUpdates, None)
    end.

End Crud.

(** ** crud.go: the other helpers *)

Section MoreCrud.
Variable env : Env.

(** The verb [%v] of package [fmt], which the helpers use in the text of
    two errors only. *)
Variable formatV : any -> string.

Definition replyInts (v : any) : option (list Z) :=
  match v with
  | AInts l => l
  | _ => None
  end.

Definition Search (model : Model) (domain : Domain) (options : list (option Options))
  : M (option (list Z) * option error) :=
  '(err, ids) ← executeRPC env model "search"
                  (Some [ASlice (Domain_ToRPC domain)])
                  (parseOptions options) (AInts None);
  match err with
  | Some e => ret (None, Some e)
  | None => ret (replyInts ids, None)
  end.

(** The options that [SearchOne] sends: the ones given, with [Limit] set
    to 1. *)
Definition searchOneOptions (options : list (option Options)) : Options :=
  match options with
  | Some o :: _ =>
      {| Context := Context o; Limit := 1; Offset := Offset o; Order := Order o;
         Extra := Extra o |}
  | _ => {| Context := ∅; Limit := 1; Offset := 0; Order := ""; Extra := ∅ |}
  end.

(** [fmt.Errorf("%w: for model '%s' with domain %v", ErrRecordNotFound, ...)]. *)
Definition errorfNoRecordForDomain (model : Model) (domain : Domain) : error :=
  EErrorf (sentinelText ErrRecordNotFound +:+ ": for model '" +:+ model
           +:+ "' with domain " +:+ formatV (ASlice (Domain_ToRPC domain)))
          [ESentinel ErrRecordNotFound].

Definition SearchOne (model : Model) (domain : Domain) (options : list (option Options))
  : M (Z * option error) :=
  let searchOptions := searchOneOptions options in
  '(err, ids) ← executeRPC env model "search"
                  (Some [ASlice (Domain_ToRPC domain)])
                  (Options_ToRPC (Some searchOptions)) (AInts None);
  match err with
  | Some e => ret (0, Some e)
  | None =>
      let ids := replyInts ids in
      if len ids =? 0 then ret (0, Some (errorfNoRecordForDomain model domain))
      else match ids with
           | Some (id0 :: _) => ret (id0, None)
           | _ => panic                       (* ids[0] out of range *)
           end
  end.

(** [fmt.Errorf("%w: for model '%s' with ID %v", ErrRecordNotFound, ...)]. *)
Definition errorfNoRecordForID (model : Model) (id : Z) : error :=
  EErrorf (sentinelText ErrRecordNotFound +:+ ": for model '" +:+ model
           +:+ "' with ID " +:+ formatV (AInt id))
          [ESentinel ErrRecordNotFound].

Definition ReadOne (model : Model) (id : Z) (fields : Fields)
    (options : list (option Options)) : M (option (gmap string any) * option error) :=
  '(records, err) ← Read env model (Some [id]) fields options;
  match err with
  | Some e => ret (None, Some e)
  | None =>
      if len records =? 0 then ret (None, Some (errorfNoRecordForID model id))
      else match records with
           | Some (r :: _) => ret (Some r, None)
           | _ => panic                       (* records[0] out of range *)
           end
  end.

(** [fmt.Errorf("%w: Odoo did not return an ID ...", ErrInvalidResponse)]. *)
Definition errorfNoIDReturned : error :=
  EErrorf (sentinelText ErrInvalidResponse
           +:+ ": Odoo did not return an ID for single record creation")
          [ESentinel ErrInvalidResponse].

Definition CreateOne (model : Model) (data : Data) (options : list (option Options))
  : M (Z * option error) :=
  '(err, newIDs) ← executeRPC env model "create"
                     (Some [AMaps (Some [Data_ToRPC data])])
                     (parseOptions options) (AInts None);
  match err with
  | Some e => ret (0, Some e)
  | None =>
      let newIDs := replyInts newIDs in
      if len newIDs =? 0 then ret (0, Some errorfNoIDReturned)
      else match newIDs with
           | Some (id0 :: _) => ret (id0, None)
           | _ => panic                       (* newIDs[0] out of range *)
           end
  end.

Definition Create (model : Model) (data : option (list Data))
    (options : list (option Options)) : M (option (list Z) * option error) :=
  if len data =? 0 then ret (Some [], None)
  else
    let dataToRPC := map Data_ToRPC (elems data) in
    '(err, newIDs) ← executeRPC env model "create"
                       (Some [AMaps (Some dataToRPC)])
                       (parseOptions options) (AInts None);
    match err with
    | Some e => ret (None, Some e)
    | None => ret (replyInts newIDs, None)
    end.

(** [CallOdoo]: the same steps as [executeRPC], written out again in the
    source, with a reply variable [result] of type [interface{}] that is
    returned only when the call succeeded. *)
Definition CallOdoo (model : Model) (method : string) (args : option (list any))
    (options : gmap string any) : M (any * option error) :=
  '(uid, rpcClient, err) ← getConnection env;
  match err with
  | Some e => ret (ANil, Some e)
  | None =>
      c ← getClient;
      let result := ANil in
      let rpcCallArgs :=
        Some [AString (db c); AInt uid; AString (password c);
              AString model; AString method; ASlice args] in
      let rpcCallArgs :=
        if 0 <? Z.of_nat (size options)
        then append rpcCallArgs (AMap options)
        else append rpcCallArgs (AMap ∅) in
      g ← Go env rpcClient "execute_kw" (ASlice rpcCallArgs);
      sel ← Select env g;
      match sel with
      | FromContext e _ => ret (ANil, Some e)
      | FromCall =>
          match callErr g with
          | inl err =>
              ret (ANil, parseOdooRPCError (Some (errorfCallFailed method model err)))
          | inr v => ret (v, None)
          end
      end
  end.

End MoreCrud.

(** ** Vocabulary of the properties *)

(** [sub] occurs in [s]. *)
Definition occurs (sub s : string) : Prop :=
  exists pre post, s = pre +:+ sub +:+ post.

(** The message carries one of the phrases of an unknown model. *)
Definition hasInvalidModelPhrase (m : string) : Prop :=
  occurs "The model does not exist" m
  \/ occurs "No model named" m
  \/ occurs "not found in registry" m
  \/ (occurs "'object' object has no attribute" m /\ occurs "model" m).

(** The message carries one of the phrases of an unknown method. *)
Definition hasInvalidMethodPhrase (m : string) : Prop :=
  occurs "Object has no method" m
  \/ occurs "method does not exist" m
  \/ (occurs "missing 1 required positional argument" m /\ occurs "self" m).

(** The returned error [r] carries the numeric code [code] and the message
    [msg] of the fault: a [*OdooRPCError] found by [errors.As] has them in
    its fields [Code] and [Message]. *)
Definition carriesFault (r : error) (code : Z) (msg : string) : Prop :=
  exists o, errorsAsOdooRPC r = Some (o, code, msg).

(** What one condition of a domain becomes in the list sent to the
    server: the bare operator for a condition made of one string, the
    condition itself otherwise. *)
Definition rpcElement (cond : DomainCondition) : any :=
  match cond with
  | Some [AString op] => AString op
  | _ => ACondition cond
  end.

(** The state in which [getConnection], called in state [s] without a
    valid session, starts [authenticate]: the context was polled, and the
    stored handle, if there was one, was closed and forgotten. *)
Definition staleClosed (s : State) : State :=
  match rpcClient (client s) with
  | Some rc =>
      {| client := withRpcClient (client s) None; clock := S (S (clock s));
         trace := (trace s ++ [EvClose rc])%list |}
  | None => {| client := client s; clock := S (clock s); trace := trace s |}
  end.

(** The handle to the common endpoint that [authenticate] makes when it
    starts in state [s]. *)
Definition commonClientOf (s : State) : Client :=
  {| endpoint := commonURL (client s); transport := transportOf (client s);
     madeAt := S (clock s) |}.

(** The handle to the object endpoint that it makes after the login. *)
Definition objectClientOf (s : State) : Client :=
  {| endpoint := objectURL (client s); transport := transportOf (client s);
     madeAt := 4 + clock s |}.

(** ** Sample clients and environments *)

(** A client just made by [New]: no session yet, six hours of validity. *)
Definition freshClient : OdooClient :=
  {| url := "https://odoo.example.com"; db := "prod"; username := "admin";
     password := "secret"; uid := 0; rpcClient := None; lastAuth := 0;
     authTimeout := 6 * 3600 * 1000000000; skipTLSVerify := false;
     httpTransport := RoundTripperNil |}.

(** The same client with a session opened at instant 1000. *)
Definition loggedInClient : OdooClient :=
  withSession freshClient 7
    (Some {| endpoint := objectURL freshClient; transport := DefaultTransport; madeAt := 0 |})
    1000.

(** The same session once its six hours have passed at instant 2000: the
    handle is still stored, and stale. *)
Definition expiredClient : OdooClient :=
  withSession freshClient 7
    (Some {| endpoint := objectURL freshClient; transport := DefaultTransport; madeAt := 0 |})
    (2000 - 6 * 3600 * 1000000000).

Definition startWith (c : OdooClient) : State :=
  {| client := c; clock := 0; trace := [] |}.

(** What a serving server answers: the identity 7 to a login, one record
    to a read, true to everything else. *)
Definition servingReply (method : string) (args : any) : any :=
  if String.eqb method "authenticate" then AInt 7
  else match args with
       | ASlice (Some [_; _; _; _; AString "read"; _; _]) =>
           AMaps (Some [{[ "id" := AInt 1 ]}])
       | _ => ABool true
       end.

(** A server that answers every call, under a context that is never done
    and a clock that reads 2000. *)
Definition servingEnv : Env :=
  {| ctxErr := fun _ => None;
     now := fun _ => 2000;
     newClient := fun _ _ _ => None;
     call := fun _ _ method args => inr (servingReply method args);
     ctxFirst := fun _ => false;
     callDone := fun _ => false |}.

(** A server that refuses every call. *)
Definition refusingEnv : Env :=
  {| ctxErr := fun _ => None;
     now := fun _ => 2000;
     newClient := fun _ _ _ => None;
     call := fun _ _ _ _ => inl (EForeign "XML-RPC fault: <Fault 1: 'Access denied'>");
     ctxFirst := fun _ => false;
     callDone := fun _ => false |}.

(** The serving server, under a context that is cancelled from the start. *)
Definition cancelledEnv : Env :=
  {| ctxErr := fun _ => Some (ESentinel ContextCanceled);
     now := fun _ => 2000;
     newClient := fun _ _ _ => None;
     call := fun _ _ method args => inr (servingReply method args);
     ctxFirst := fun _ => true;
     callDone := fun _ => false |}.


(** ** Vocabulary of the further properties *)

(** Every byte of [s] passes the test [p]. *)
Fixpoint allBytes (p : ascii -> bool) (s : string) : bool :=
  match s with
  | EmptyString => true
  | String c cs => p c && allBytes p cs
  end.

Definition notCapitalF (c : ascii) : bool := negb (Ascii.eqb c "F").
Definition notQuoteNorLF (c : ascii) : bool :=
  negb (Ascii.eqb c "'") && negb (Ascii.eqb c "010").

(** The settings of a client, which no call changes. *)
Definition sameConfig (c c' : OdooClient) : Prop :=
  url c' = url c /\ db c' = db c /\ username c' = username c
  /\ password c' = password c /\ authTimeout c' = authTimeout c
  /\ skipTLSVerify c' = skipTLSVerify c /\ httpTransport c' = httpTransport c.

#[global] Instance Transport_eq_dec : EqDecision Transport.
Proof. solve_decision. Defined.

#[global] Instance Client_eq_dec : EqDecision Client.
Proof. solve_decision. Defined.

(** The handles that a trace closes, in order. *)
Fixpoint closedHandles (tr : list Event) : list Client :=
  match tr with
  | [] => []
  | EvClose c :: rest => c :: closedHandles rest
  | _ :: rest => closedHandles rest
  end.

(** The events of a trace that are calls of [execute_kw], completed or
    left in flight, in order. *)
Fixpoint executeCalls (tr : list Event) : list Event :=
  match tr with
  | [] => []
  | EvCall c m a :: rest =>
      if String.eqb m "execute_kw" then EvCall c m a :: executeCalls rest
      else executeCalls rest
  | EvCallInFlight c m a :: rest =>
      if String.eqb m "execute_kw" then EvCallInFlight c m a :: executeCalls rest
      else executeCalls rest
  | _ :: rest => executeCalls rest
  end.

(** The arguments of [execute_kw] as the server expects them: the
    database, the uid, the password, the model, the method, its
    positional arguments and its keyword arguments. *)
Definition executeArgs (c : OdooClient) (u : Z) (model method : string)
    (args : option (list any)) (options : gmap string any) : any :=
  ASlice (Some [AString (db c); AInt u; AString (password c);
                AString model; AString method; ASlice args; AMap options]).

(** What the [select] of a call takes at moment [n]: the error of the
    context when its case is taken, nothing when the case of the call is. *)
Definition selectTaken (env : Env) (n : nat) : option error :=
  match ctxErr env n with
  | Some e => if ctxFirst env n then Some e else None
  | None => None
  end.

(** The events of a call of [authenticate] are one of these lists. *)
Definition authenticateEvents (s : State) (evs : list Event) : Prop :=
  let c := client s in
  let common := commonClientOf s in
  evs = []
  \/ evs = [EvNewClient (commonURL c) (transportOf c)]
  \/ evs = [EvNewClient (commonURL c) (transportOf c);
            EvCall common "authenticate" (authenticateArgs c);
            EvClose common]
  \/ evs = [EvNewClient (commonURL c) (transportOf c);
            EvCall common "authenticate" (authenticateArgs c);
            EvNewClient (objectURL c) (transportOf c);
            EvClose common].

(** ** Proof tools *)

(** Unfolding of the monad and of its primitives. *)
Ltac run_monad :=
  unfold mbind, M_bind, mret, M_ret, ret, panic,
    ctxPoll, ctxErrNow, timeNow, getClient, setClient, NewClient, Close, Call, Go, Select;
  simpl.

(** One case of [authenticate]: its events are [evs]. *)
Ltac auth_case evs :=
  eexists _, _, evs;
  split; [reflexivity |];
  split; [simpl; rewrite ?app_nil_r, <- ?app_assoc; reflexivity |];
  split; [auto 6 |];
  split; [simpl; lia |];
  split; [simpl; intros Hin; first [lia | inversion Hin] |];
  try reflexivity.

(** ** Facts about strings *)

#[local] Arguments String.append !_ _ / : simpl nomatch.

Lemma append_assoc (a b c : string) : (a +:+ b) +:+ c = a +:+ b +:+ c.
Proof. induction a as [|x a IH]; simpl; [reflexivity | now rewrite IH]. Qed.

Lemma HasPrefix_true (s p : string) :
  HasPrefix s p = true <-> exists r, s = p +:+ r.
Proof.
  revert s. induction p as [|a p IH]; intros s; simpl.
  - split; [intros _; now exists s | reflexivity].
  - destruct s as [|c s].
    + split; [discriminate | intros [r Hr]; discriminate].
    + destruct (Ascii.eqb_spec c a) as [->|Hne].
      * rewrite IH. split; intros [r Hr]; exists r; [now rewrite Hr | now injection Hr].
      * split; [discriminate | intros [r Hr]; injection Hr; intros _ E; now destruct Hne].
Qed.

Lemma dropBytes_append (p r : string) : dropBytes (String.length p) (p +:+ r) = r.
Proof. induction p as [|a p IH]; simpl; [now destruct r | exact IH]. Qed.

Lemma TrimPrefix_true (s p : string) :
  HasPrefix s p = true -> p +:+ TrimPrefix s p = s.
Proof.
  intros H. unfold TrimPrefix. rewrite H.
  apply HasPrefix_true in H as [r ->]. now rewrite dropBytes_append.
Qed.

Lemma Contains_true (s sub : string) :
  Contains s sub = true <-> occurs sub s.
Proof.
  unfold occurs. induction s as [|c s IH]; simpl.
  - destruct (HasPrefix "" sub) eqn:E.
    + split; [intros _ | reflexivity].
      apply HasPrefix_true in E as [r Hr]. now exists "", r.
    + split; [discriminate |]. intros (pre & post & H).
      destruct pre; simpl in H; [| discriminate].
      assert (HasPrefix "" sub = true) by (apply HasPrefix_true; eauto).
      congruence.
  - destruct (HasPrefix (String c s) sub) eqn:E.
    + split; [intros _ | reflexivity].
      apply HasPrefix_true in E as [r Hr]. now exists "", r.
    + rewrite IH. split.
      * intros (pre & post & ->). now exists (String c pre), post.
      * intros (pre & post & H). destruct pre as [|a pre]; simpl in H.
        -- assert (HasPrefix (String c s) sub = true) by (apply HasPrefix_true; eauto).
           congruence.
        -- injection H as _ ->. now exists pre, post.
Qed.

Lemma occurs_middle (a sub b : string) : occurs sub (a +:+ sub +:+ b).
Proof. now exists a, b. Qed.

Lemma isInvalidModelMessage_spec (m : string) :
  isInvalidModelMessage m = true <-> hasInvalidModelPhrase m.
Proof.
  unfold isInvalidModelMessage, hasInvalidModelPhrase.
  rewrite !orb_true_iff, andb_true_iff, !Contains_true. tauto.
Qed.

Lemma isInvalidMethodMessage_spec (m : string) :
  isInvalidMethodMessage m = true <-> hasInvalidMethodPhrase m.
Proof.
  unfold isInvalidMethodMessage, hasInvalidMethodPhrase.
  rewrite !orb_true_iff, andb_true_iff, !Contains_true. tauto.
Qed.

Lemma spanDigits_append (s d r : string) :
  spanDigits s = (d, r) -> s = d +:+ r.
Proof.
  revert d r. induction s as [|c s IH]; intros d r; simpl.
  - now intros [= <- <-].
  - destruct (isDigit c).
    + destruct (spanDigits s) as [d' r'] eqn:E. intros [= <- <-].
      simpl. f_equal. now apply IH.
    + now intros [= <- <-].
Qed.

Lemma lazyUntilQuote_append (s m : string) :
  lazyUntilQuote s = Some m -> exists post, s = m +:+ "'" +:+ post.
Proof.
  revert m. induction s as [|c s IH]; intros m; simpl; [discriminate |].
  destruct (Ascii.eqb_spec c "'") as [->|_].
  - intros [= <-]. now exists s.
  - destruct (Ascii.eqb c "010"); [discriminate |].
    destruct (lazyUntilQuote s) as [m'|]; [| discriminate].
    intros [= <-]. destruct (IH m' eq_refl) as [post ->]. now exists post.
Qed.

(** A match of the expression is an occurrence of the text
    [Fault <digits>: '<message>'] whose groups are the ones returned. *)
Lemma matchFaultHere_sound (s g1 g2 : string) :
  matchFaultHere s = Some (g1, g2) ->
  exists post, s = "Fault " +:+ g1 +:+ ": '" +:+ g2 +:+ "'" +:+ post.
Proof.
  unfold matchFaultHere.
  destruct (HasPrefix s "Fault ") eqn:Hp; [| discriminate].
  apply HasPrefix_true in Hp as [r0 ->].
  change 6%nat with (String.length "Fault "). rewrite dropBytes_append.
  destruct (spanDigits r0) as [d rest] eqn:Hd.
  apply spanDigits_append in Hd as ->.
  destruct d as [|d0 d]; [discriminate |].
  destruct (HasPrefix rest ": '") eqn:Hq; [| discriminate].
  apply HasPrefix_true in Hq as [r3 ->].
  change 3%nat with (String.length ": '"). rewrite dropBytes_append.
  destruct (lazyUntilQuote r3) as [m|] eqn:Hm; [| discriminate].
  intros [= <- <-]. apply lazyUntilQuote_append in Hm as [post ->].
  exists post. simpl. now rewrite ?append_assoc.
Qed.

Lemma FindFaultSubmatch_sound (s g1 g2 : string) :
  FindFaultSubmatch s = Some (g1, g2) ->
  occurs ("Fault " +:+ g1 +:+ ": '" +:+ g2 +:+ "'") s.
Proof.
  induction s as [|c s IH]; simpl.
  - discriminate.
  - destruct (matchFaultHere (String c s)) as [g|] eqn:E.
    + intros [= ->]. apply matchFaultHere_sound in E as [post E].
      exists "", post. rewrite E. simpl. now repeat (rewrite append_assoc; simpl).
    + intros H. destruct (IH H) as (pre & post & ->).
      now exists (String c pre), post.
Qed.

(** ** The error classifier *)

Lemma parseOdooRPCError_unfold (err : error) :
  parseOdooRPCError (Some err) =
  let fm := (extractFault (Error err)).2 in
  if isInvalidModelMessage fm then Some (errorfClassified ErrInvalidModel fm err)
  else if isInvalidMethodMessage fm then Some (errorfClassified ErrInvalidMethod fm err)
  else Some (EOdooRPC (Some err) (extractFault (Error err)).1 fm).
Proof. unfold parseOdooRPCError. now destruct (extractFault (Error err)). Qed.

(** C5. For every non-nil error, parseOdooRPCError buckets the fault by the
    phrases that occur in the fault message: an invalid-model phrase gives
    an error that wraps ErrInvalidModel, whatever else the message holds;
    failing that, an invalid-method phrase gives an error that wraps
    ErrInvalidMethod; failing both, the result is the generic
    OdooRPCError. *)
Theorem parseOdooRPCError_buckets (err : error) :
  let faultMessage := (extractFault (Error err)).2 in
  (hasInvalidModelPhrase faultMessage ->
     exists r, parseOdooRPCError (Some err) = Some r
               /\ errorsIs r ErrInvalidModel = true)
  /\ (~ hasInvalidModelPhrase faultMessage -> hasInvalidMethodPhrase faultMessage ->
     exists r, parseOdooRPCError (Some err) = Some r
               /\ errorsIs r ErrInvalidMethod = true)
  /\ (~ hasInvalidModelPhrase faultMessage -> ~ hasInvalidMethodPhrase faultMessage ->
     parseOdooRPCError (Some err)
     = Some (EOdooRPC (Some err) (extractFault (Error err)).1 faultMessage)).
Proof.
  intros fm. rewrite parseOdooRPCError_unfold. fold fm. cbv zeta.
  rewrite <- isInvalidModelMessage_spec, <- isInvalidMethodMessage_spec.
  destruct (isInvalidModelMessage fm); [| destruct (isInvalidMethodMessage fm)].
  - split; [| split]; [intros _ | intros H; now destruct H ..].
    eexists; split; [reflexivity | reflexivity].
  - split; [| split]; [discriminate | intros _ _ | intros _ H; now destruct H].
    eexists; split; [reflexivity | reflexivity].
  - split; [| split]; [discriminate | discriminate | reflexivity].
Qed.

(** C8. parseOdooRPCError maps nil to nil and every non-nil error to a
    non-nil error. *)
Theorem parseOdooRPCError_nil_iff :
  parseOdooRPCError None = None
  /\ forall err : error, parseOdooRPCError (Some err) <> None.
Proof.
  split; [reflexivity |]. intros err. rewrite parseOdooRPCError_unfold. cbv zeta.
  destruct (isInvalidModelMessage _); [discriminate |].
  destruct (isInvalidMethodMessage _); discriminate.
Qed.

Lemma occurs_after (a b sub post : string) : occurs sub (a +:+ b +:+ sub +:+ post).
Proof. exists (a +:+ b), post. now rewrite append_assoc. Qed.

Lemma errorfClassified_keeps (s : Sentinel) (fm : string) (err : error) :
  unwrapsTo (errorfClassified s fm err) err
  /\ occurs fm (Error (errorfClassified s fm err))
  /\ errorsIs (errorfClassified s fm err) s = true.
Proof.
  split; [| split].
  - simpl. right; right; now left.
  - apply occurs_after.
  - simpl. now rewrite bool_decide_eq_true_2.
Qed.

(** How the fault message and the fault code are taken from the text. *)
Lemma extractFault_cases (errMsg : string) :
  let code := (extractFault errMsg).1 in
  let msg := (extractFault errMsg).2 in
  (forall g1 g2, FindFaultSubmatch errMsg = Some (g1, g2) ->
     occurs ("Fault " +:+ g1 +:+ ": '" +:+ g2 +:+ "'") errMsg
     /\ msg = g2
     /\ (forall n, Atoi g1 = Some n -> code = n)
     /\ (Atoi g1 = None -> code = 0))
  /\ (FindFaultSubmatch errMsg = None -> HasPrefix errMsg "XML-RPC fault: " = true ->
     errMsg = "XML-RPC fault: " +:+ msg /\ code = 0)
  /\ (FindFaultSubmatch errMsg = None -> HasPrefix errMsg "XML-RPC fault: " = false ->
     msg = errMsg /\ code = 0).
Proof.
  unfold extractFault. split; [| split].
  - intros g1 g2 H. rewrite H. simpl. split; [now apply FindFaultSubmatch_sound |].
    split; [reflexivity |]. split.
    + intros n ->. reflexivity.
    + intros ->. reflexivity.
  - intros -> Hp. rewrite Hp. simpl. split; [| reflexivity].
    symmetry. exact (TrimPrefix_true errMsg "XML-RPC fault: " Hp).
  - intros -> Hp. rewrite Hp. now split.
Qed.

(** C6, as the code has it. For every non-nil error the returned error wraps
    the original error and its text holds the fault message, in each of
    the three buckets; the fault message is the second group of
    [Fault <n>: '<msg>'] when that pattern occurs, the text after the
    prefix [XML-RPC fault: ] when only the prefix is there, and the whole
    text otherwise.  The parsed numeric code is kept, as the field Code
    next to the field Message, in the generic OdooRPCError; the
    invalid-model and invalid-method errors are made of the sentinel, the
    fault message and the original error only. *)
Theorem parseOdooRPCError_preserves (err : error) :
  let errMsg := Error err in
  let code := (extractFault errMsg).1 in
  let msg := (extractFault errMsg).2 in
  exists r,
    parseOdooRPCError (Some err) = Some r
    /\ unwrapsTo r err
    /\ occurs msg (Error r)
    /\ (if isInvalidModelMessage msg then r = errorfClassified ErrInvalidModel msg err
        else if isInvalidMethodMessage msg then r = errorfClassified ErrInvalidMethod msg err
        else r = EOdooRPC (Some err) code msg /\ carriesFault r code msg)
    /\ (forall g1 g2, FindFaultSubmatch errMsg = Some (g1, g2) ->
          occurs ("Fault " +:+ g1 +:+ ": '" +:+ g2 +:+ "'") errMsg
          /\ msg = g2
          /\ (forall n, Atoi g1 = Some n -> code = n)
          /\ (Atoi g1 = None -> code = 0))
    /\ (FindFaultSubmatch errMsg = None -> HasPrefix errMsg "XML-RPC fault: " = true ->
          errMsg = "XML-RPC fault: " +:+ msg /\ code = 0)
    /\ (FindFaultSubmatch errMsg = None -> HasPrefix errMsg "XML-RPC fault: " = false ->
          msg = errMsg /\ code = 0).
Proof.
  intros errMsg code msg.
  rewrite parseOdooRPCError_unfold. fold errMsg. fold msg. fold code. cbv zeta.
  pose proof (extractFault_cases errMsg) as HX. cbv zeta in HX. fold code msg in HX.
  destruct (isInvalidModelMessage msg); [| destruct (isInvalidMethodMessage msg)].
  - eexists; split; [reflexivity |].
    destruct (errorfClassified_keeps ErrInvalidModel msg err) as (? & ? & _).
    split; [assumption |]. split; [assumption |]. split; [reflexivity | exact HX].
  - eexists; split; [reflexivity |].
    destruct (errorfClassified_keeps ErrInvalidMethod msg err) as (? & ? & _).
    split; [assumption |]. split; [assumption |]. split; [reflexivity | exact HX].
  - eexists; split; [reflexivity |].
    split; [simpl; now left |]. split; [apply occurs_after |].
    split; [split; [reflexivity | now exists (Some err)] | exact HX].
Qed.

(** C6 as stated fails: the fault [Fault 2: 'No model named x'] has the
    parsed code 2, it falls in the invalid-model bucket, and the error
    returned for it holds no OdooRPCError, hence no field Code. *)
Lemma parseOdooRPCError_code_dropped :
  let err := EForeign "XML-RPC fault: <Fault 2: 'No model named x'>" in
  extractFault (Error err) = (2, "No model named x")
  /\ ~ (forall r, parseOdooRPCError (Some err) = Some r ->
                  carriesFault r (extractFault (Error err)).1 (extractFault (Error err)).2).
Proof.
  split; [reflexivity |]. intros H.
  destruct (H _ eq_refl) as [o Ho]. discriminate Ho.
Qed.

(** ** Domain.ToRPC *)

Lemma Domain_ToRPC_step_append (acc : option (list any)) (cond : DomainCondition) :
  Domain_ToRPC_step acc cond = append acc (rpcElement cond).
Proof.
  unfold Domain_ToRPC_step, rpcElement.
  destruct cond as [[|x [|y l]]|]; try reflexivity.
  - destruct x; reflexivity.
  - unfold len.
    destruct (Z.eqb_spec (Z.of_nat (length (x :: y :: l))) 1) as [E|_];
      [simpl in E; lia |].
    destruct x; reflexivity.
Qed.

Lemma elems_append {A} (acc : option (list A)) (x : A) :
  elems (append acc x) = (elems acc ++ [x])%list.
Proof. now destruct acc. Qed.

Lemma Domain_ToRPC_fold (conds : list DomainCondition) (acc : option (list any)) :
  elems (fold_left Domain_ToRPC_step conds acc) = (elems acc ++ map rpcElement conds)%list.
Proof.
  revert acc. induction conds as [|cond conds IH]; intros acc; simpl.
  - now rewrite app_nil_r.
  - rewrite IH, Domain_ToRPC_step_append, elems_append, <- app_assoc. reflexivity.
Qed.

Lemma Domain_ToRPC_elems (conds : list DomainCondition) :
  elems (Domain_ToRPC (Some conds)) = map rpcElement conds.
Proof. unfold Domain_ToRPC. now rewrite Domain_ToRPC_fold. Qed.

(** C9. Domain.ToRPC returns for every domain: a nil domain gives the empty
    list, not nil; a non-nil domain gives one element per condition, in
    the order of the conditions: the bare string for a condition made of
    one string, the condition unchanged for every other one. *)
Theorem Domain_ToRPC_length_preserving :
  Domain_ToRPC None = Some []
  /\ forall conds : list DomainCondition,
       len (Domain_ToRPC (Some conds)) = Z.of_nat (length conds)
       /\ forall (i : nat) (cond : DomainCondition),
            conds !! i = Some cond ->
            (forall op, cond = Some [AString op] ->
               elems (Domain_ToRPC (Some conds)) !! i = Some (AString op))
            /\ ((forall op, cond <> Some [AString op]) ->
               elems (Domain_ToRPC (Some conds)) !! i = Some (ACondition cond)).
Proof.
  split; [reflexivity |]. intros conds.
  pose proof (Domain_ToRPC_elems conds) as HE. split.
  - transitivity (Z.of_nat (length (elems (Domain_ToRPC (Some conds))))).
    + now destruct (Domain_ToRPC (Some conds)).
    + now rewrite HE, length_map.
  - intros i cond Hi. rewrite HE, list_lookup_fmap, Hi. simpl. split.
    + intros op ->. reflexivity.
    + intros Hne. f_equal. unfold rpcElement.
      destruct cond as [[|x [|y l]]|]; try reflexivity.
      * destruct x; try reflexivity. now destruct (Hne s).
      * destruct x; reflexivity.
Qed.

(** ** The session *)

Lemma isAuthValid_true (now : Time) (c : OdooClient) :
  isAuthValid now c = true
  <-> uid c <> 0 /\ rpcClient c <> None /\ Since now (lastAuth c) < authTimeout c.
Proof.
  unfold isAuthValid.
  rewrite !andb_true_iff, negb_true_iff, Z.eqb_neq, bool_decide_eq_true, Z.ltb_lt.
  tauto.
Qed.

(** C1. The session is taken as valid exactly when the identity is not zero,
    the transport handle is not nil and the time since the last
    authentication is strictly below the expiry duration; hence, for an
    expiry duration that is a Duration, a valid session has
    now - lastAuth < authTimeout. *)
Theorem isAuthValid_iff (now : Time) (c : OdooClient) :
  (isAuthValid now c = true
   <-> uid c <> 0 /\ rpcClient c <> None /\ Since now (lastAuth c) < authTimeout c)
  /\ (authTimeout c <= maxDuration -> isAuthValid now c = true ->
      now - lastAuth c < authTimeout c).
Proof.
  split; [apply isAuthValid_true |].
  intros Hmax Hvalid. apply isAuthValid_true in Hvalid as (_ & _ & Hlt).
  unfold Since, Sub in Hlt. unfold maxDuration in *. lia.
Qed.

Lemma isAuthValid_iff_witness :
  2000 - lastAuth loggedInClient < authTimeout loggedInClient.
Proof.
  apply (proj2 (isAuthValid_iff 2000 loggedInClient)).
  - vm_compute. discriminate.
  - reflexivity.
Defined.

(** C3. When the remote procedure authenticate answers with an error,
    authenticate returns an error that wraps ErrAuthenticationFailed and
    leaves uid, rpcClient and lastAuth as they were. *)
Theorem authenticate_rejected (env : Env) (s : State) (e : error) :
  ctxErr env (clock s) = None ->
  newClient env (S (clock s)) (commonURL (client s)) (transportOf (client s)) = None ->
  call env (S (S (clock s))) (commonClientOf s) "authenticate"
       (authenticateArgs (client s)) = inl e ->
  exists err s',
    authenticate env s = Ok (Some err) s'
    /\ errorsIs err ErrAuthenticationFailed = true
    /\ uid (client s') = uid (client s)
    /\ rpcClient (client s') = rpcClient (client s)
    /\ lastAuth (client s') = lastAuth (client s).
Proof.
  intros Hctx Hdial Hcall. unfold commonClientOf in Hcall.
  unfold authenticate. run_monad. rewrite Hctx. simpl. rewrite Hdial. simpl.
  rewrite Hcall. simpl.
  eexists _, _. split; [reflexivity |]. repeat split.
Qed.

Lemma authenticate_rejected_witness :
  exists err s',
    authenticate refusingEnv (startWith freshClient) = Ok (Some err) s'
    /\ errorsIs err ErrAuthenticationFailed = true
    /\ uid (client s') = uid freshClient
    /\ rpcClient (client s') = rpcClient freshClient
    /\ lastAuth (client s') = lastAuth freshClient.
Proof.
  apply (authenticate_rejected refusingEnv (startWith freshClient)
           (EForeign "XML-RPC fault: <Fault 1: 'Access denied'>"));
    reflexivity.
Defined.

(** [authenticate] always returns; with an error the session is left as it
    was, without one the session is the new one: the identity the server
    gave, a handle to the object endpoint made in this call, and the time
    read right after that handle was made. *)
Lemma authenticate_cases (env : Env) (s : State) :
  exists a s',
    authenticate env s = Ok a s'
    /\ match a with
       | Some _ => client s' = client s
       | None =>
           exists v,
             call env (S (S (clock s))) (commonClientOf s) "authenticate"
                  (authenticateArgs (client s)) = inr v
             /\ client s' = withSession (client s) (replyInt64 v)
                              (Some (objectClientOf s)) (now env (5 + clock s)%nat)
             /\ clock s' = (6 + clock s)%nat
             /\ trace s' = (trace s ++
                  [EvNewClient (commonURL (client s)) (transportOf (client s));
                   EvCall (commonClientOf s) "authenticate" (authenticateArgs (client s));
                   EvNewClient (objectURL (client s)) (transportOf (client s));
                   EvClose (commonClientOf s)])%list
       end.
Proof.
  unfold authenticate, commonClientOf, objectClientOf. run_monad.
  destruct (ctxErr env (clock s)); simpl; [eexists _, _; split; reflexivity |].
  destruct (newClient env (S (clock s)) _ _); simpl; [eexists _, _; split; reflexivity |].
  destruct (call env (S (S (clock s))) _ _ _) as [e|v] eqn:Hcall; simpl;
    [eexists _, _; split; reflexivity |].
  destruct (ctxErr env (S (S (S (clock s))))); simpl; [eexists _, _; split; reflexivity |].
  destruct (newClient env (S (S (S (S (clock s))))) _ _); simpl;
    [eexists _, _; split; reflexivity |].
  eexists _, _; split; [reflexivity |]. exists v. simpl.
  repeat split. now rewrite !app_nil_r, <- !app_assoc.
Qed.

(** Under a context that is done on entry: 0, nil and its error. *)
Lemma getConnection_cancelled (env : Env) (s : State) (e : error) :
  ctxErr env (clock s) = Some e ->
  getConnection env s = Ok (0, None, Some e) (interact [] s).
Proof. intros Hctx. unfold getConnection. run_monad. now rewrite Hctx. Qed.

(** A valid session under a context that is not done: the stored uid and
    handle, and only the poll of the context has happened. *)
Lemma getConnection_valid (env : Env) (s : State) :
  ctxErr env (clock s) = None ->
  isAuthValid (now env (S (clock s))) (client s) = true ->
  getConnection env s = Ok (uid (client s), rpcClient (client s), None) (interact [] s).
Proof.
  intros Hctx Hvalid. unfold getConnection. run_monad. rewrite Hctx. simpl.
  now rewrite Hvalid.
Qed.

(** No valid session under a context that is not done: the stale handle is
    closed, [authenticate] runs, and its outcome decides the result. *)
Lemma getConnection_reauthenticates (env : Env) (s : State) :
  ctxErr env (clock s) = None ->
  isAuthValid (now env (S (clock s))) (client s) = false ->
  exists s1 a s',
    closeStale (client s) (interact [] s) = Ok tt s1
    /\ authenticate env s1 = Ok a s'
    /\ url (client s1) = url (client s)
    /\ db (client s1) = db (client s)
    /\ username (client s1) = username (client s)
    /\ password (client s1) = password (client s)
    /\ (clock s < clock s1)%nat
    /\ getConnection env s =
       match a with
       | Some e => Ok (0, None, Some e) s'
       | None => Ok (uid (client s'), rpcClient (client s'), None) s'
       end.
Proof.
  intros Hctx Hinvalid.
  assert (Hs1 : exists s1, closeStale (client s) (interact [] s) = Ok tt s1
                 /\ url (client s1) = url (client s)
                 /\ db (client s1) = db (client s)
                 /\ username (client s1) = username (client s)
                 /\ password (client s1) = password (client s)
                 /\ (clock s < clock s1)%nat).
  { unfold closeStale. destruct (rpcClient (client s)); run_monad.
    - eexists; split; [reflexivity |]. simpl. repeat split; lia.
    - eexists; split; [reflexivity |]. simpl. repeat split; lia. }
  destruct Hs1 as (s1 & Hclose & Hurl & Hdb & Huser & Hpass & Hclock).
  destruct (authenticate_cases env s1) as (a & s' & Hauth & _).
  exists s1, a, s'. repeat (split; [assumption |]).
  unfold getConnection. run_monad. rewrite Hctx. simpl. rewrite Hinvalid. simpl.
  unfold mbind, M_bind in Hclose |- *. rewrite Hclose, Hauth. now destruct a.
Qed.

(** C2, as the code has it.  Under a context that is done on entry,
    getConnection returns 0, nil and the error of the context, whatever
    the session, and asks nothing of the server.  Under a context that is
    not done: a valid session gives the stored uid and handle, the client
    and the trace being left as they are; otherwise the stored handle, if
    any, is closed and forgotten, and authenticate runs.  If it fails, 0,
    nil and its error are returned.  If it succeeds, the client holds,
    and getConnection returns, the uid that the server answered and a
    handle to the object endpoint made during this call, lastAuth is the
    time read right after that handle was made, and the trace is the one
    before, the Close of the stale handle, and the four interactions of
    the login. *)
Theorem getConnection_session (env : Env) (s : State) :
  let c := client s in
  let t := now env (S (clock s)) in
  (forall e, ctxErr env (clock s) = Some e ->
     getConnection env s
     = Ok (0, None, Some e) {| client := c; clock := S (clock s); trace := trace s |})
  /\ (ctxErr env (clock s) = None -> isAuthValid t c = true ->
      getConnection env s
      = Ok (uid c, rpcClient c, None) {| client := c; clock := S (clock s); trace := trace s |})
  /\ (ctxErr env (clock s) = None -> isAuthValid t c = false ->
      let s1 := staleClosed s in
      let common := {| endpoint := commonURL c; transport := transportOf c;
                       madeAt := S (clock s1) |} in
      let object := {| endpoint := objectURL c; transport := transportOf c;
                       madeAt := 4 + clock s1 |} in
      trace s1 = (trace s ++ match rpcClient c with
                             | Some rc => [EvClose rc]
                             | None => []
                             end)%list
      /\ rpcClient (client s1) = None
      /\ exists a s',
           authenticate env s1 = Ok a s'
           /\ match a with
              | Some e =>
                  getConnection env s = Ok (0, None, Some e) s'
                  /\ client s' = client s1
              | None =>
                  exists v,
                    call env (S (S (clock s1))) common "authenticate"
                         (ASlice (Some [AString (db c); AString (username c);
                                        AString (password c); AMap ∅])) = inr v
                    /\ getConnection env s = Ok (replyInt64 v, Some object, None) s'
                    /\ client s' = withSession c (replyInt64 v) (Some object)
                                     (now env (S (madeAt object)))
                    /\ (clock s < madeAt object < clock s')%nat
                    /\ trace s' = (trace s1 ++
                          [EvNewClient (commonURL c) (transportOf c);
                           EvCall common "authenticate"
                             (ASlice (Some [AString (db c); AString (username c);
                                            AString (password c); AMap ∅]));
                           EvNewClient (objectURL c) (transportOf c);
                           EvClose common])%list
              end).
Proof.
  intros c t. split; [| split].
  - intros e Hctx. rewrite (getConnection_cancelled env s e Hctx).
    unfold interact. now rewrite app_nil_r.
  - intros Hctx Hvalid. rewrite (getConnection_valid env s Hctx Hvalid).
    unfold interact. now rewrite app_nil_r.
  - intros Hctx Hinvalid s1 common object.
    destruct (getConnection_reauthenticates env s Hctx Hinvalid)
      as (s0 & a & s' & Hclose & Hauth & _ & _ & _ & _ & _ & Hrun).
    assert (Hs0 : s0 = s1).
    { revert Hclose. unfold s1, staleClosed, closeStale. fold c.
      destruct (rpcClient c) as [rc0|]; run_monad; intros [= <-];
        unfold interact; simpl; now rewrite !app_nil_r. }
    subst s0.
    assert (Hs1 : url (client s1) = url c /\ db (client s1) = db c
                  /\ username (client s1) = username c
                  /\ password (client s1) = password c
                  /\ authTimeout (client s1) = authTimeout c
                  /\ skipTLSVerify (client s1) = skipTLSVerify c
                  /\ httpTransport (client s1) = httpTransport c
                  /\ rpcClient (client s1) = None
                  /\ (clock s < clock s1)%nat
                  /\ trace s1 = (trace s ++ match rpcClient c with
                                            | Some rc => [EvClose rc]
                                            | None => []
                                            end)%list).
    { unfold s1, staleClosed. fold c. destruct (rpcClient c) as [rc0|] eqn:Hrc; simpl;
        rewrite ?app_nil_r; repeat split; try assumption; lia. }
    destruct Hs1 as (Hurl & Hdb & Huser & Hpass & Hto & Hskip & Htp & Hnone & Hclk & Htr).
    split; [exact Htr |]. split; [exact Hnone |].
    exists a, s'. split; [exact Hauth |].
    destruct (authenticate_cases env s1) as (a2 & s2 & Hauth2 & Hcase).
    rewrite Hauth in Hauth2. injection Hauth2 as <- <-.
    destruct a as [e|]; [split; [exact Hrun | exact Hcase] |].
    destruct Hcase as (v & Hcall & Hclient & Hclock & Htrace).
    revert Hcall Hclient Htrace.
    unfold commonClientOf, objectClientOf, authenticateArgs, withSession,
      commonURL, objectURL, transportOf.
    rewrite Hurl, Hdb, Huser, Hpass, Hto, Hskip, Htp.
    intros Hcall Hclient Htrace.
    exists v. split; [exact Hcall |].
    split; [rewrite Hrun, Hclient; reflexivity |].
    split; [exact Hclient |]. split; [simpl; lia |]. exact Htrace.
Qed.
Lemma getConnection_session_witness :
  getConnection cancelledEnv (startWith loggedInClient)
  = Ok (0, None, Some (ESentinel ContextCanceled))
       {| client := loggedInClient; clock := 1; trace := [] |}
  /\ getConnection servingEnv (startWith loggedInClient)
     = Ok (7, rpcClient loggedInClient, None)
          {| client := loggedInClient; clock := 1; trace := [] |}
  /\ exists stale fresh s',
       rpcClient expiredClient = Some stale
       /\ getConnection servingEnv (startWith expiredClient) = Ok (7, Some fresh, None) s'
       /\ fresh <> stale
       /\ endpoint fresh = objectURL expiredClient
       /\ client s' = withSession expiredClient 7 (Some fresh) 2000
       /\ trace s'
          = [EvClose stale;
             EvNewClient (commonURL expiredClient) DefaultTransport;
             EvCall {| endpoint := commonURL expiredClient; transport := DefaultTransport;
                       madeAt := 3 |}
                    "authenticate"
                    (ASlice (Some [AString "prod"; AString "admin"; AString "secret";
                                   AMap ∅]));
             EvNewClient (objectURL expiredClient) DefaultTransport;
             EvClose {| endpoint := commonURL expiredClient; transport := DefaultTransport;
                        madeAt := 3 |}].
Proof.
  split; [| split].
  - apply (proj1 (getConnection_session cancelledEnv (startWith loggedInClient))).
    reflexivity.
  - apply (proj1 (proj2 (getConnection_session servingEnv (startWith loggedInClient))));
      reflexivity.
  - destruct (proj2 (proj2 (getConnection_session servingEnv (startWith expiredClient))))
      as (_ & _ & a & s' & Hauth & Hcase); [reflexivity | vm_compute; reflexivity |].
    vm_compute in Hauth. injection Hauth as <- <-.
    destruct Hcase as (v & Hcall & Hrun & Hclient & _ & Htrace).
    vm_compute in Hcall. injection Hcall as <-.
    eexists _, _, _. split; [reflexivity |]. split; [exact Hrun |].
    split; [intros H; apply (f_equal madeAt) in H; discriminate H |].
    split; [reflexivity |]. split; [reflexivity |]. reflexivity.
Defined.
(** C2 as stated fails: a session that is valid is not returned when the
    context is already cancelled. *)
Lemma getConnection_cancelled_valid_session :
  isAuthValid (now cancelledEnv 1) loggedInClient = true
  /\ getConnection cancelledEnv (startWith loggedInClient)
     = Ok (0, None, Some (ESentinel ContextCanceled)) (interact [] (startWith loggedInClient))
  /\ forall s', getConnection cancelledEnv (startWith loggedInClient)
                <> Ok (uid loggedInClient, rpcClient loggedInClient, None) s'.
Proof.
  split; [reflexivity |]. split; [reflexivity |]. intros s'. discriminate.
Qed.
(** ** The call executor *)

(** [getConnection] always returns, and without an error the handle it
    returns is not nil. *)
Lemma getConnection_cases (env : Env) (s : State) :
  exists u rc err s',
    getConnection env s = Ok (u, rc, err) s'
    /\ (err = None -> rc <> None).
Proof.
  destruct (ctxErr env (clock s)) as [e|] eqn:Hctx.
  - exists 0, None, (Some e). eexists. split; [| discriminate].
    unfold getConnection. run_monad. now rewrite Hctx.
  - destruct (isAuthValid (now env (S (clock s))) (client s)) eqn:Hv.
    + eexists _, _, _, _. split; [now apply getConnection_valid |]. intros _.
      now apply isAuthValid_true in Hv.
    + destruct (getConnection_reauthenticates env s Hctx Hv)
        as (s1 & a & s' & _ & Hauth & _ & _ & _ & _ & _ & Hrun).
      destruct a as [e|].
      * eexists _, _, _, _. split; [exact Hrun | discriminate].
      * destruct (authenticate_cases env s1) as (a2 & s2 & Hauth2 & Hcase).
        rewrite Hauth in Hauth2. injection Hauth2 as <- <-.
        destruct Hcase as (v & _ & Hclient & _).
        eexists _, _, _, _. split; [exact Hrun |]. intros _.
        rewrite Hclient. discriminate.
Qed.

(** [executeRPC] always returns: the handle it calls is never nil. *)
Lemma executeRPC_total (env : Env) (model method : string) (args : option (list any))
    (options : gmap string any) (reply : any) (s : State) :
  exists err r s', executeRPC env model method args options reply s = Ok (err, r) s'.
Proof.
  destruct (getConnection_cases env s) as (u & rc & err & s1 & Hconn & Hrc).
  unfold executeRPC. unfold mbind at 1. unfold M_bind at 1. rewrite Hconn.
  destruct err as [e|]; [eexists _, _, _; reflexivity |].
  destruct rc as [rc|]; [| now destruct Hrc].
  run_monad.
  destruct (ctxErr env (S (clock s1))) as [e|];
    [destruct (ctxFirst env (S (clock s1))); [destruct (callDone env (S (clock s1))) |] |];
    try (eexists _, _, _; reflexivity);
    destruct (call env (clock s1) rc _ _); eexists _, _, _; reflexivity.
Qed.




(** ** The batch of updates *)




(** ** The typed helpers on an empty list of ids *)

(** C10. With an empty list of ids, Read and ReadWithLimit return the empty
    list, not nil, and no error, while Update and Delete return false and
    an error; in the four cases the state is the one before the call:
    nothing was asked of the server. *)
Theorem empty_ids_asymmetry (env : Env) (model : Model) (ids : option (list Z))
    (fields : Fields) (options : list (option Options)) (limitOptions : option Options)
    (data : Data) (s : State) :
  len ids = 0 ->
  Read env model ids fields options s = Ok (Some [], None) s
  /\ ReadWithLimit env model ids fields limitOptions s = Ok (Some [], None) s
  /\ (exists e, Update env model ids data options s = Ok (false, Some e) s)
  /\ (exists e, Delete env model ids options s = Ok (false, Some e) s).
Proof.
  intros Hlen. unfold Read, ReadWithLimit, Update, Delete. rewrite Hlen. simpl.
  split; [reflexivity |]. split; [reflexivity |]. split; eexists; reflexivity.
Qed.

Lemma empty_ids_asymmetry_witness :
  Read servingEnv "res.partner" (Some []) (Some ["name"]) [] (startWith loggedInClient)
  = Ok (Some [], None) (startWith loggedInClient)
  /\ exists e, Delete servingEnv "res.partner" None [] (startWith loggedInClient)
               = Ok (false, Some e) (startWith loggedInClient).
Proof.
  split.
  - apply (empty_ids_asymmetry servingEnv "res.partner" (Some []) (Some ["name"]) [] None ∅
             (startWith loggedInClient)). reflexivity.
  - apply (empty_ids_asymmetry servingEnv "res.partner" None None [] None ∅
             (startWith loggedInClient)). reflexivity.
Defined.

(** ** Runs on the sample environments *)

Example extractFault_access_denied :
  extractFault "XML-RPC fault: <Fault 1: 'Access denied'>" = (1, "Access denied").
Proof. reflexivity. Qed.

Example extractFault_prefix_only :
  extractFault "XML-RPC fault: connection reset" = (0, "connection reset").
Proof. reflexivity. Qed.

Example extractFault_code_out_of_range :
  extractFault "Fault 99999999999999999999: 'too big'" = (0, "too big").
Proof. reflexivity. Qed.

Example parseOdooRPCError_model_before_method :
  exists r,
    parseOdooRPCError
      (Some (EForeign "Fault 1: 'No model named x; Object has no method y'")) = Some r
    /\ errorsIs r ErrInvalidModel = true
    /\ errorsIs r ErrInvalidMethod = false.
Proof. eexists. split; [reflexivity |]. split; reflexivity. Qed.

Example Domain_ToRPC_or :
  Domain_ToRPC (Some [Some [AString "|"];
                      Some [AString "name"; AString "="; AString "a"];
                      Some [AInt 1]])
  = Some [AString "|";
          ACondition (Some [AString "name"; AString "="; AString "a"]);
          ACondition (Some [AInt 1])].
Proof. reflexivity. Qed.

Example Domain_ToRPC_empty_not_nil_domain : Domain_ToRPC (Some []) = None.
Proof. reflexivity. Qed.

(** A first call on a fresh client logs in, then reads. *)
Example Read_first_call :
  exists s',
    Read servingEnv "res.partner" (Some [1]) (Some ["name"]) [] (startWith freshClient)
    = Ok (Some [{[ "id" := AInt 1 ]}], None) s'
    /\ uid (client s') = 7
    /\ lastAuth (client s') = 2000
    /\ length (trace s') = 5%nat.
Proof. eexists. split; [vm_compute; reflexivity |]. repeat split. Qed.

(** The same read when the server refuses it: the generic error, with the
    code and the message of the fault. *)
Example Read_refused :
  exists e s',
    Read refusingEnv "res.partner" (Some [1]) None [] (startWith loggedInClient)
    = Ok (None, Some e) s'
    /\ carriesFault e 1 "Access denied".
Proof. eexists _, _. split; [vm_compute; reflexivity |]. eexists. reflexivity. Qed.

(** ** Further properties of the error classifier *)

(** X1. errors.Is on the classified error: a sentinel is recognised exactly
    when it is the one of the bucket or the original error already
    wrapped it.  In particular ErrOdooRPC is never added: the generic
    error is recognised as ErrOdooRPC only if the original one was. *)
Theorem parseOdooRPCError_errorsIs (err : error) (target : Sentinel) :
  let fm := (extractFault (Error err)).2 in
  exists r,
    parseOdooRPCError (Some err) = Some r
    /\ errorsIs r target
       = (if isInvalidModelMessage fm then bool_decide (ErrInvalidModel = target)
          else if isInvalidMethodMessage fm then bool_decide (ErrInvalidMethod = target)
          else false) || errorsIs err target
    /\ errorsIs r ErrOdooRPC = errorsIs err ErrOdooRPC.
Proof.
  intros fm. rewrite parseOdooRPCError_unfold. fold fm. cbv zeta.
  destruct (isInvalidModelMessage fm); [| destruct (isInvalidMethodMessage fm)];
    eexists; (split; [reflexivity |]); simpl; rewrite ?orb_false_r; split; reflexivity.
Qed.

Lemma spanDigits_all (d r : string) :
  allBytes isDigit d = true ->
  (forall c r', r = String c r' -> isDigit c = false) ->
  spanDigits (d +:+ r) = (d, r).
Proof.
  intros Hd Hr. induction d as [|c d IH]; simpl in *.
  - destruct r as [|c r']; [reflexivity |]. simpl. now rewrite (Hr c r' eq_refl).
  - apply andb_true_iff in Hd as [Hc Hd]. now rewrite Hc, (IH Hd).
Qed.

Lemma lazyUntilQuote_all (m post : string) :
  allBytes notQuoteNorLF m = true ->
  lazyUntilQuote (m +:+ String "'" post) = Some m.
Proof.
  intros Hm. induction m as [|c m IH]; simpl in *; [reflexivity |].
  apply andb_true_iff in Hm as [Hc Hm]. unfold notQuoteNorLF in Hc.
  apply andb_true_iff in Hc as [Hq Hn]. apply negb_true_iff in Hq, Hn.
  now rewrite Hq, Hn, (IH Hm).
Qed.

Lemma matchFaultHere_not_F (c : ascii) (s : string) :
  notCapitalF c = true -> matchFaultHere (String c s) = None.
Proof.
  unfold notCapitalF, matchFaultHere. intros H. apply negb_true_iff in H.
  simpl. now rewrite H.
Qed.

(** X2. The pattern finds the fault it is meant for: in a text made of a
    lead without a capital F, then [Fault <digits>: '<message>'] with a
    message that holds neither a quote nor a line feed, the two groups
    are the digits and the message, whatever follows; extractFault then
    gives that message, with the value of the digits when it fits an int
    and 0 otherwise. *)
Theorem FindFaultSubmatch_complete (lead digits msg post : string) :
  allBytes notCapitalF lead = true ->
  digits <> "" ->
  allBytes isDigit digits = true ->
  allBytes notQuoteNorLF msg = true ->
  let text := lead +:+ "Fault " +:+ digits +:+ ": '" +:+ msg +:+ "'" +:+ post in
  FindFaultSubmatch text = Some (digits, msg)
  /\ extractFault text = (match Atoi digits with Some n => n | None => 0 end, msg).
Proof.
  intros Hlead Hne Hd Hm text.
  assert (Hfind : FindFaultSubmatch text = Some (digits, msg)).
  { unfold text. clear text. induction lead as [|c lead IH]; simpl in *.
    - unfold matchFaultHere. simpl.
      rewrite spanDigits_all; [| exact Hd | intros c r' [= <- _]; reflexivity].
      destruct digits as [|d0 digits]; [now destruct Hne |].
      simpl. now rewrite lazyUntilQuote_all.
    - apply andb_true_iff in Hlead as [Hc Hlead].
      rewrite matchFaultHere_not_F by exact Hc. now apply IH. }
  split; [exact Hfind |]. unfold extractFault. now rewrite Hfind.
Qed.

Lemma FindFaultSubmatch_complete_witness :
  extractFault "XML-RPC fault: <Fault 3: 'Access denied'>" = (3, "Access denied").
Proof.
  apply (FindFaultSubmatch_complete "XML-RPC fault: <" "3" "Access denied" ">");
    [reflexivity | discriminate | reflexivity | reflexivity].
Defined.

(** X3. The errors that executeRPC hands to the classifier start with
    [failed to call Odoo method], never with [XML-RPC fault: ]: the
    prefix is never trimmed, and without a match of the pattern the fault
    message is the whole text, the lead included, and the code is 0. *)
Theorem errorfCallFailed_never_trimmed (method model : string) (err : error) :
  let text := Error (errorfCallFailed method model err) in
  HasPrefix text "XML-RPC fault: " = false
  /\ (FindFaultSubmatch text = None -> extractFault text = (0, text)).
Proof.
  intros text.
  assert (Hp : HasPrefix text "XML-RPC fault: " = false) by reflexivity.
  split; [exact Hp |]. intros Hnone. unfold extractFault. now rewrite Hnone, Hp.
Qed.

(** ** Further properties of the conversions of types.go *)

Lemma rpcElement_cases (cond : DomainCondition) :
  (exists op, cond = Some [AString op] /\ rpcElement cond = AString op)
  \/ rpcElement cond = ACondition cond.
Proof.
  destruct cond as [[|x [|y l]]|]; try (now right).
  - destruct x; try (now right). left. now eexists.
  - destruct x; now right.
Qed.

Lemma rpcElement_inj (c1 c2 : DomainCondition) :
  rpcElement c1 = rpcElement c2 -> c1 = c2.
Proof.
  destruct (rpcElement_cases c1) as [(op1 & -> & E1)|E1],
           (rpcElement_cases c2) as [(op2 & -> & E2)|E2];
    rewrite E1, E2; intros H; try discriminate H; now injection H as ->.
Qed.

(** X4. The result of Domain.ToRPC is nil for one domain only, the one that
    is empty without being nil; the nil domain gives the empty list. *)
Theorem Domain_ToRPC_nil_iff (d : Domain) :
  Domain_ToRPC d = None <-> d = Some [].
Proof.
  split; [| now intros ->].
  destruct d as [[|c l]|]; [reflexivity | | discriminate].
  intros H. pose proof (Domain_ToRPC_elems (c :: l)) as HE.
  rewrite H in HE. discriminate HE.
Qed.

(** X5. Domain.ToRPC loses nothing: two domains with the same list for the
    server are the same domain. *)
Theorem Domain_ToRPC_inj (d1 d2 : Domain) :
  Domain_ToRPC d1 = Domain_ToRPC d2 -> d1 = d2.
Proof.
  intros H.
  assert (Hnil : forall l, Domain_ToRPC (Some l) = Some [] -> False).
  { intros l Hl. pose proof (Domain_ToRPC_elems l) as HE. rewrite Hl in HE.
    destruct l; [discriminate Hl | discriminate HE]. }
  destruct d1 as [l1|], d2 as [l2|]; [| | | reflexivity].
  - f_equal. pose proof (Domain_ToRPC_elems l1) as H1.
    pose proof (Domain_ToRPC_elems l2) as H2. rewrite H, H2 in H1.
    clear H H2 Hnil. revert l2 H1.
    induction l1 as [|c1 l1 IH]; intros [|c2 l2] H1; try discriminate H1;
      [reflexivity |].
    simpl in H1. injection H1 as Hc Hl. apply rpcElement_inj in Hc as ->.
    f_equal. now apply IH.
  - destruct (Hnil l1). now rewrite H.
  - destruct (Hnil l2). now rewrite <- H.
Qed.

Lemma Domain_ToRPC_inj_witness :
  Some [Some [AString "|"]; Some [AInt 1]] = (Some [Some [AString "|"]; Some [AInt 1]] : Domain).
Proof. apply Domain_ToRPC_inj. reflexivity. Defined.

(** The entry of [Options.ToRPC] under one key. *)
Lemma Options_ToRPC_lookup_key (o : Options) (k : string) :
  Options_ToRPC (Some o) !! k =
  match Extra o !! k with
  | Some v => Some v
  | None =>
      if decide (k = "order")
      then (if String.eqb (Order o) "" then None else Some (AString (Order o)))
      else if decide (k = "offset")
      then (if 0 <? Offset o then Some (AInt (Offset o)) else None)
      else if decide (k = "limit")
      then (if 0 <? Limit o then Some (AInt (Limit o)) else None)
      else if decide (k = "context")
      then (if 0 <? Z.of_nat (size (Context o)) then Some (AContext (Context o)) else None)
      else None
  end.
Proof.
  unfold Options_ToRPC. rewrite lookup_union.
  destruct (Extra o !! k) as [v|]; [now rewrite union_Some_l |].
  rewrite (left_id None union).
  destruct (String.eqb (Order o) ""), (0 <? Offset o), (0 <? Limit o),
    (0 <? Z.of_nat (size (Context o))); simpl;
    repeat (rewrite lookup_insert); rewrite ?lookup_empty;
    repeat case_decide; subst; try reflexivity; try congruence; discriminate.
Qed.

(** X6. What Options.ToRPC holds under a key: the entry of Extra when there
    is one, which thus overrides the four named options; otherwise the
    order when it is not empty, the offset and the limit when they are
    positive, the context when it is not empty, and nothing under any
    other key. *)
Theorem Options_ToRPC_lookup (o : Options) (k : string) :
  (forall v, Extra o !! k = Some v -> Options_ToRPC (Some o) !! k = Some v)
  /\ (Extra o !! k = None ->
      Options_ToRPC (Some o) !! k =
      if decide (k = "order")
      then (if String.eqb (Order o) "" then None else Some (AString (Order o)))
      else if decide (k = "offset")
      then (if 0 <? Offset o then Some (AInt (Offset o)) else None)
      else if decide (k = "limit")
      then (if 0 <? Limit o then Some (AInt (Limit o)) else None)
      else if decide (k = "context")
      then (if 0 <? Z.of_nat (size (Context o)) then Some (AContext (Context o)) else None)
      else None).
Proof.
  split.
  - intros v Hextra. now rewrite Options_ToRPC_lookup_key, Hextra.
  - intros Hextra. now rewrite Options_ToRPC_lookup_key, Hextra.
Qed.

(** X7. Options.ToRPC gives the empty map exactly for a nil receiver and for
    options that say nothing: no context, no order, no extra entry, and a
    limit and an offset that are zero or negative. *)
Theorem Options_ToRPC_empty_iff (o : option Options) :
  Options_ToRPC o = ∅
  <-> o = None
      \/ exists o', o = Some o' /\ Context o' = ∅ /\ Limit o' <= 0 /\ Offset o' <= 0
                    /\ Order o' = "" /\ Extra o' = ∅.
Proof.
  split.
  - destruct o as [o|]; [| now left]. intros H. right. exists o.
    assert (Hk : forall k, Options_ToRPC (Some o) !! k = None)
      by (intros k; now rewrite H, lookup_empty).
    assert (HE : Extra o = ∅).
    { apply map_empty. intros k. specialize (Hk k).
      rewrite Options_ToRPC_lookup_key in Hk. now destruct (Extra o !! k). }
    assert (HEk : forall k, Extra o !! k = None) by (intros k; now rewrite HE, lookup_empty).
    pose proof (Hk "order") as Ho. pose proof (Hk "offset") as Hf.
    pose proof (Hk "limit") as Hl. pose proof (Hk "context") as Hc.
    rewrite Options_ToRPC_lookup_key, HEk in Ho, Hf, Hl, Hc. simpl in Ho, Hf, Hl, Hc.
    split; [reflexivity |]. split; [| split; [| split; [| split; [| exact HE]]]].
    + destruct (Z.ltb_spec 0 (Z.of_nat (size (Context o)))) as [_|Hs]; [discriminate Hc |].
      apply map_size_empty_iff. lia.
    + destruct (Z.ltb_spec 0 (Limit o)); [discriminate Hl | assumption].
    + destruct (Z.ltb_spec 0 (Offset o)); [discriminate Hf | assumption].
    + destruct (String.eqb_spec (Order o) ""); [assumption | discriminate Ho].
  - intros [->|(o' & -> & Hc & Hl & Hf & Ho & HE)]; [reflexivity |].
    apply map_empty. intros k. rewrite Options_ToRPC_lookup_key, HE, lookup_empty, Hc, Ho.
    replace (0 <? Limit o') with false by (symmetry; apply Z.ltb_ge; exact Hl).
    replace (0 <? Offset o') with false by (symmetry; apply Z.ltb_ge; exact Hf).
    simpl. repeat case_decide; reflexivity.
Qed.

(** ** Further properties of the session *)

(** X8. A session that is not valid at some time is not valid at any later
    time: only a new authentication makes it valid again. *)
Theorem isAuthValid_stays_invalid (t t' : Time) (c : OdooClient) :
  t <= t' -> isAuthValid t c = false -> isAuthValid t' c = false.
Proof.
  intros Hle Hinv. apply not_true_is_false. intros Hvalid.
  apply isAuthValid_true in Hvalid as (Hu & Hr & Hlt).
  assert (Hv : isAuthValid t c = true); [| congruence].
  apply isAuthValid_true. repeat split; try assumption.
  unfold Since, Sub in *. lia.
Qed.

Lemma isAuthValid_stays_invalid_witness :
  isAuthValid (1000 + 6 * 3600 * 1000000000 + 5) loggedInClient = false.
Proof.
  apply (isAuthValid_stays_invalid (1000 + 6 * 3600 * 1000000000) _ loggedInClient);
    [lia | reflexivity].
Defined.

(** The events of [authenticate], its clock, and the session it leaves. *)
Lemma authenticate_effect (env : Env) (s : State) :
  exists a s' evs,
    authenticate env s = Ok a s'
    /\ trace s' = (trace s ++ evs)%list
    /\ authenticateEvents s evs
    /\ (clock s < clock s')%nat
    /\ (commonClientOf s ∈ closedHandles evs -> (S (S (clock s)) <= clock s')%nat)
    /\ match a with
       | Some _ => client s' = client s
       | None =>
           evs = [EvNewClient (commonURL (client s)) (transportOf (client s));
                  EvCall (commonClientOf s) "authenticate" (authenticateArgs (client s));
                  EvNewClient (objectURL (client s)) (transportOf (client s));
                  EvClose (commonClientOf s)]
           /\ clock s' = (6 + clock s)%nat
           /\ exists v,
                client s' = withSession (client s) (replyInt64 v)
                              (Some (objectClientOf s)) (now env (5 + clock s)%nat)
       end.
Proof.
  unfold authenticate, authenticateEvents, commonClientOf, objectClientOf. run_monad.
  destruct (ctxErr env (clock s)); simpl; [auth_case (@nil Event) |].
  destruct (newClient env (S (clock s)) _ _); simpl;
    [auth_case [EvNewClient (commonURL (client s)) (transportOf (client s))] |].
  destruct (call env (S (S (clock s))) _ _ _) as [e|v] eqn:Hcall; simpl;
    [auth_case [EvNewClient (commonURL (client s)) (transportOf (client s));
                EvCall (commonClientOf s) "authenticate" (authenticateArgs (client s));
                EvClose (commonClientOf s)] |].
  destruct (ctxErr env (S (S (S (clock s))))); simpl;
    [auth_case [EvNewClient (commonURL (client s)) (transportOf (client s));
                EvCall (commonClientOf s) "authenticate" (authenticateArgs (client s));
                EvClose (commonClientOf s)] |].
  destruct (newClient env (S (S (S (S (clock s))))) _ _); simpl;
    [auth_case [EvNewClient (commonURL (client s)) (transportOf (client s));
                EvCall (commonClientOf s) "authenticate" (authenticateArgs (client s));
                EvNewClient (objectURL (client s)) (transportOf (client s));
                EvClose (commonClientOf s)] |].
  auth_case [EvNewClient (commonURL (client s)) (transportOf (client s));
             EvCall (commonClientOf s) "authenticate" (authenticateArgs (client s));
             EvNewClient (objectURL (client s)) (transportOf (client s));
             EvClose (commonClientOf s)].
  split; [reflexivity |]. split; [reflexivity |]. now exists v.
Qed.

Lemma sameConfig_refl (c : OdooClient) : sameConfig c c.
Proof. now repeat split. Qed.

Lemma sameConfig_trans (c1 c2 c3 : OdooClient) :
  sameConfig c1 c2 -> sameConfig c2 c3 -> sameConfig c1 c3.
Proof. unfold sameConfig. intuition congruence. Qed.

Lemma sameConfig_withSession (c : OdooClient) (u : Z) (rc : option Client) (t : Time) :
  sameConfig c (withSession c u rc t).
Proof. now repeat split. Qed.

Lemma executeCalls_app (tr evs : list Event) :
  executeCalls (tr ++ evs) = (executeCalls tr ++ executeCalls evs)%list.
Proof.
  induction tr as [|ev tr IH]; [reflexivity |].
  destruct ev as [| |c m a|c m a]; simpl; try exact IH;
    destruct (String.eqb m "execute_kw"); simpl; now rewrite IH.
Qed.

Lemma closeStale_effect (s s1 : State) :
  closeStale (client s) (interact [] s) = Ok tt s1 ->
  sameConfig (client s) (client s1)
  /\ (clock s < clock s1)%nat
  /\ exists evs, trace s1 = (trace s ++ evs)%list /\ executeCalls evs = [].
Proof.
  unfold closeStale. destruct (rpcClient (client s)) as [rc0|] eqn:Hrc; run_monad;
    intros [= <-]; simpl.
  - split; [now repeat split |]. split; [lia |].
    exists [EvClose rc0]. split; [now rewrite app_nil_r | reflexivity].
  - split; [apply sameConfig_refl |]. split; [lia |].
    exists []. split; reflexivity.
Qed.
(** [authenticate] keeps the settings and sends no [execute_kw]. *)
Lemma authenticate_keeps (env : Env) (s : State) (a : option error) (s' : State) :
  authenticate env s = Ok a s' ->
  sameConfig (client s) (client s')
  /\ (clock s < clock s')%nat
  /\ exists evs, trace s' = (trace s ++ evs)%list /\ executeCalls evs = [].
Proof.
  intros Hrun.
  destruct (authenticate_effect env s)
    as (a' & s'' & evs & Hrun' & Htrace & Hevs & Hclock & Hcommon & Hcase).
  rewrite Hrun in Hrun'. injection Hrun' as <- <-.
  assert (Hcfg : sameConfig (client s) (client s')).
  { destruct a as [e|].
    - rewrite Hcase. apply sameConfig_refl.
    - destruct Hcase as (_ & _ & v & Hc). rewrite Hc. apply sameConfig_withSession. }
  split; [exact Hcfg |]. split; [exact Hclock |].
  exists evs. split; [exact Htrace |].
  destruct Hevs as [-> | [-> | [-> | ->]]]; reflexivity.
Qed.
(** What [getConnection] does to the state, whatever it returns. *)
Lemma getConnection_keeps (env : Env) (s : State) (u : Z) (rc : option Client)
    (err : option error) (s' : State) :
  getConnection env s = Ok (u, rc, err) s' ->
  sameConfig (client s) (client s')
  /\ (clock s < clock s')%nat
  /\ (err = None -> u = uid (client s') /\ rc = rpcClient (client s') /\ rc <> None)
  /\ (err <> None -> u = 0 /\ rc = None)
  /\ exists evs, trace s' = (trace s ++ evs)%list /\ executeCalls evs = [].
Proof.
  intros Hrun. destruct (ctxErr env (clock s)) as [e|] eqn:Hctx.
  { assert (H : getConnection env s = Ok (0, None, Some e) (interact [] s))
      by (unfold getConnection; run_monad; now rewrite Hctx).
    rewrite H in Hrun. injection Hrun as <- <- <- <-. simpl.
    split; [apply sameConfig_refl |]. split; [lia |].
    split; [discriminate |]. split; [now split |].
    exists []. split; reflexivity. }
  destruct (isAuthValid (now env (S (clock s))) (client s)) eqn:Hv.
  { rewrite (getConnection_valid env s Hctx Hv) in Hrun.
    injection Hrun as <- <- <- <-. simpl.
    split; [apply sameConfig_refl |]. split; [lia |]. split.
    - intros _. split; [reflexivity |]. split; [reflexivity |].
      now apply isAuthValid_true in Hv.
    - split; [intros H; now destruct H |].
      exists []. split; reflexivity. }
  destruct (getConnection_reauthenticates env s Hctx Hv)
    as (s1 & a & s2 & Hclose & Hauth & _ & _ & _ & _ & _ & Hres).
  destruct (closeStale_effect s s1 Hclose) as (Hcfg1 & Hclk1 & evs1 & Htr1 & Hev1).
  destruct (authenticate_keeps env s1 a s2 Hauth) as (Hcfg2 & Hclk2 & evs2 & Htr2 & Hev2).
  assert (Hs' : s' = s2 /\ err = a
                /\ (a = None -> u = uid (client s2) /\ rc = rpcClient (client s2))
                /\ (a <> None -> u = 0 /\ rc = None)).
  { rewrite Hres in Hrun. destruct a as [e|]; injection Hrun as <- <- <- <-;
      (split; [reflexivity |]); (split; [reflexivity |]); split;
      try discriminate; try (now split); intros H; now destruct H. }
  destruct Hs' as (-> & -> & Hnone & Hsome).
  split; [exact (sameConfig_trans _ _ _ Hcfg1 Hcfg2) |]. split; [lia |]. split.
  - intros ->. destruct (Hnone eq_refl) as [-> ->]. split; [reflexivity |].
    split; [reflexivity |].
    destruct (authenticate_cases env s1) as (a2 & s3 & Hauth2 & Hcase).
    rewrite Hauth in Hauth2. injection Hauth2 as <- <-.
    destruct Hcase as (v & _ & Hclient & _). rewrite Hclient. discriminate.
  - split; [exact Hsome |]. exists (evs1 ++ evs2)%list.
    split; [now rewrite Htr2, Htr1, app_assoc |].
    now rewrite executeCalls_app, Hev1, Hev2.
Qed.
(** [executeRPC] after [getConnection]: the goroutine of the call, then the
    [select]. *)
Lemma executeRPC_run (env : Env) (model method : string) (args : option (list any))
    (options : gmap string any) (reply : any) (s : State)
    (u : Z) (rc : option Client) (err : option error) (s1 : State) :
  getConnection env s = Ok (u, rc, err) s1 ->
  executeRPC env model method args options reply s =
  match err, rc with
  | Some e, _ => Ok (Some e, reply) s1
  | None, None => Panic
  | None, Some rc =>
      let a := executeArgs (client s1) u model method args options in
      let r := call env (clock s1) rc "execute_kw" a in
      let s2 := interact [] s1 in
      match selectTaken env (clock s2) with
      | Some e =>
          if callDone env (clock s2)
          then Ok (Some e, decoded reply r) (interact [EvCall rc "execute_kw" a] s2)
          else Ok (Some e, reply) (interact [EvCallInFlight rc "execute_kw" a] s2)
      | None =>
          Ok (match r with
              | inl e => (parseOdooRPCError (Some (errorfCallFailed method model e)), reply)
              | inr v => (None, v)
              end)
             (interact [EvCall rc "execute_kw" a] s2)
      end
  end.
Proof.
  intros Hconn. unfold executeRPC. unfold mbind at 1. unfold M_bind at 1.
  rewrite Hconn. destruct err as [e|]; [reflexivity |].
  destruct rc as [rc|]; [| reflexivity].
  unfold selectTaken, executeArgs.
  destruct (0 <? Z.of_nat (size options)) eqn:Hsize.
  - run_monad.
    destruct (ctxErr env (S (clock s1))) as [e|];
      [destruct (ctxFirst env (S (clock s1))); [destruct (callDone env (S (clock s1))) |] |];
      try reflexivity; now destruct (call env (clock s1) rc _ _).
  - apply Z.ltb_ge in Hsize.
    assert (options = ∅) as -> by (apply map_size_empty_iff; lia).
    run_monad.
    destruct (ctxErr env (S (clock s1))) as [e|];
      [destruct (ctxFirst env (S (clock s1))); [destruct (callDone env (S (clock s1))) |] |];
      try reflexivity; now destruct (call env (clock s1) rc _ _).
Qed.
(** The same for [CallOdoo]. *)
Lemma CallOdoo_run (env : Env) (model method : string) (args : option (list any))
    (options : gmap string any) (s : State)
    (u : Z) (rc : option Client) (err : option error) (s1 : State) :
  getConnection env s = Ok (u, rc, err) s1 ->
  CallOdoo env model method args options s =
  match err, rc with
  | Some e, _ => Ok (ANil, Some e) s1
  | None, None => Panic
  | None, Some rc =>
      let a := executeArgs (client s1) u model method args options in
      let r := call env (clock s1) rc "execute_kw" a in
      let s2 := interact [] s1 in
      match selectTaken env (clock s2) with
      | Some e =>
          if callDone env (clock s2)
          then Ok (ANil, Some e) (interact [EvCall rc "execute_kw" a] s2)
          else Ok (ANil, Some e) (interact [EvCallInFlight rc "execute_kw" a] s2)
      | None =>
          Ok (match r with
              | inl e => (ANil, parseOdooRPCError (Some (errorfCallFailed method model e)))
              | inr v => (v, None)
              end)
             (interact [EvCall rc "execute_kw" a] s2)
      end
  end.
Proof.
  intros Hconn. unfold CallOdoo. unfold mbind at 1. unfold M_bind at 1.
  rewrite Hconn. destruct err as [e|]; [reflexivity |].
  destruct rc as [rc|]; [| reflexivity].
  unfold selectTaken, executeArgs.
  destruct (0 <? Z.of_nat (size options)) eqn:Hsize.
  - run_monad.
    destruct (ctxErr env (S (clock s1))) as [e|];
      [destruct (ctxFirst env (S (clock s1))); [destruct (callDone env (S (clock s1))) |] |];
      try reflexivity; now destruct (call env (clock s1) rc _ _).
  - apply Z.ltb_ge in Hsize.
    assert (options = ∅) as -> by (apply map_size_empty_iff; lia).
    run_monad.
    destruct (ctxErr env (S (clock s1))) as [e|];
      [destruct (ctxFirst env (S (clock s1))); [destruct (callDone env (S (clock s1))) |] |];
      try reflexivity; now destruct (call env (clock s1) rc _ _).
Qed.
(** X9. authenticate closes the handle to the common endpoint before it
    returns whenever it has called it, and closes no other handle; with
    an error it leaves the client as it was; under a context that is done
    on entry it returns the error of the context and nothing is asked of
    the server. *)
Theorem authenticate_closes_common (env : Env) (s : State) :
  exists a s' evs,
    authenticate env s = Ok a s'
    /\ trace s' = (trace s ++ evs)%list
    /\ (forall rc, rc ∈ closedHandles evs -> rc = commonClientOf s)
    /\ (forall rc m x, In (EvCall rc m x) evs ->
          rc = commonClientOf s /\ last evs = Some (EvClose (commonClientOf s)))
    /\ (a <> None -> client s' = client s)
    /\ (forall e, ctxErr env (clock s) = Some e -> a = Some e /\ evs = []).
Proof.
  destruct (authenticate_effect env s)
    as (a & s' & evs & Hrun & Htrace & Hevs & _ & _ & Hcase).
  exists a, s', evs. split; [exact Hrun |]. split; [exact Htrace |].
  unfold authenticateEvents in Hevs. cbv zeta in Hevs.
  split; [| split; [| split]].
  - intros rc Hin. destruct Hevs as [-> | [-> | [-> | ->]]]; simpl in Hin;
      try (now inversion Hin); now apply list_elem_of_singleton in Hin.
  - intros rc m x Hin. destruct Hevs as [-> | [-> | [-> | ->]]]; simpl in Hin;
      repeat (destruct Hin as [Hin|Hin]; try discriminate Hin);
      try contradiction; injection Hin as <- _ _; now split.
  - intros Ha. destruct a; [exact Hcase | now destruct Ha].
  - intros e Hctx. revert Hrun Htrace. unfold authenticate. run_monad. rewrite Hctx.
    intros [= <- <-] Htr. split; [reflexivity |]. simpl in Htr.
    rewrite app_nil_r in Htr. rewrite <- (app_nil_r (trace s)) in Htr at 1.
    now apply app_inv_head in Htr.
Qed.

(** X10. What a login that succeeds leaves: the uid the server gave, and a
    session that is valid at a time exactly when that uid is not zero and
    the expiry duration has not passed since the login; a server that
    answers the login with uid 0 leaves a session that is never valid. *)
Theorem authenticate_then_valid (env : Env) (s s' : State) (t : Time) :
  authenticate env s = Ok None s' ->
  (exists v,
     call env (S (S (clock s))) (commonClientOf s) "authenticate"
          (authenticateArgs (client s)) = inr v
     /\ uid (client s') = replyInt64 v)
  /\ (isAuthValid t (client s') = true
      <-> uid (client s') <> 0
          /\ Since t (lastAuth (client s')) < authTimeout (client s)).
Proof.
  intros Hrun. destruct (authenticate_cases env s) as (a & s2 & Hrun2 & Hcase).
  rewrite Hrun in Hrun2. injection Hrun2 as <- <-.
  destruct Hcase as (v & Hcall & Hclient & _). split.
  - exists v. split; [exact Hcall |]. now rewrite Hclient.
  - rewrite isAuthValid_true, Hclient. simpl. split.
    + intros (Hu & _ & Hlt). now split.
    + intros (Hu & Hlt). repeat split; try assumption. discriminate.
Qed.

Lemma authenticate_then_valid_witness :
  exists s',
    authenticate servingEnv (startWith freshClient) = Ok None s'
    /\ uid (client s') = 7
    /\ isAuthValid 2000 (client s') = true.
Proof.
  eexists. split; [vm_compute; reflexivity |].
  match goal with
  | |- uid (client ?s1) = _ /\ _ =>
      destruct (authenticate_then_valid servingEnv (startWith freshClient) s1 2000)
        as [(v & Hcall & Hu) Hvalid]; [vm_compute; reflexivity |]
  end.
  vm_compute in Hcall. injection Hcall as <-.
  split; [exact Hu |]. apply Hvalid. split; [rewrite Hu; discriminate |].
  vm_compute. reflexivity.
Defined.

(** ** Further properties of the call executor *)

Lemma executeArgs_sameConfig (c c' : OdooClient) (u : Z) (model method : string)
    (args : option (list any)) (options : gmap string any) :
  sameConfig c c' ->
  executeArgs c' u model method args options = executeArgs c u model method args options.
Proof. intros (_ & Hdb & _ & Hpw & _). unfold executeArgs. now rewrite Hdb, Hpw. Qed.

(** Every run of [executeRPC], with what it adds to the trace: at most one
    call of [execute_kw], after everything else. *)
Lemma executeRPC_effect (env : Env) (model method : string) (args : option (list any))
    (options : gmap string any) (reply : any) (s : State) :
  exists err r s' evs,
    executeRPC env model method args options reply s = Ok (err, r) s'
    /\ sameConfig (client s) (client s')
    /\ (clock s < clock s')%nat
    /\ trace s' = (trace s ++ evs)%list
    /\ match executeCalls evs with
       | [] => err <> None
       | [ev] =>
           last evs = Some ev
           /\ exists c,
                rpcClient (client s') = Some c
                /\ let a := executeArgs (client s) (uid (client s')) model method args options in
                   (ev = EvCall c "execute_kw" a
                    \/ (ev = EvCallInFlight c "execute_kw" a /\ err <> None))
       | _ => False
       end.
Proof.
  destruct (getConnection_cases env s) as (u & rc & err & s1 & Hconn & Hrc).
  destruct (getConnection_keeps env s u rc err s1 Hconn)
    as (Hcfg & Hclk & Hnone & _ & evs1 & Htr & Hev).
  rewrite (executeRPC_run env model method args options reply s u rc err s1 Hconn).
  destruct err as [e|].
  { exists (Some e), reply, s1, evs1. repeat (split; [assumption || reflexivity |]).
    rewrite Hev. discriminate. }
  destruct (Hnone eq_refl) as (-> & -> & Hsome).
  destruct (rpcClient (client s1)) as [rc|] eqn:Hstored; [| now destruct Hsome].
  cbv zeta.
  rewrite (executeArgs_sameConfig _ _ _ _ _ _ _ Hcfg).
  set (a := executeArgs (client s) (uid (client s1)) model method args options).
  assert (Hcalls : forall ev, executeCalls [ev] = [ev] ->
            executeCalls (evs1 ++ [ev]) = [ev] /\ last (evs1 ++ [ev]) = Some ev).
  { intros ev Hone. rewrite executeCalls_app, Hev, Hone. split; [reflexivity | apply last_snoc]. }
  destruct (selectTaken env (clock (interact [] s1))) as [e|];
    [destruct (callDone env (clock (interact [] s1))) |].
  - exists (Some e), (decoded reply (call env (clock s1) rc "execute_kw" a)).
    eexists. exists (evs1 ++ [EvCall rc "execute_kw" a])%list.
    split; [reflexivity |]. split; [exact Hcfg |]. split; [simpl; lia |].
    split; [simpl; now rewrite app_nil_r, Htr, app_assoc |].
    destruct (Hcalls (EvCall rc "execute_kw" a) eq_refl) as [-> Hlast].
    split; [exact Hlast |]. exists rc. split; [exact Hstored | now left].
  - exists (Some e), reply.
    eexists. exists (evs1 ++ [EvCallInFlight rc "execute_kw" a])%list.
    split; [reflexivity |]. split; [exact Hcfg |]. split; [simpl; lia |].
    split; [simpl; now rewrite app_nil_r, Htr, app_assoc |].
    destruct (Hcalls (EvCallInFlight rc "execute_kw" a) eq_refl) as [-> Hlast].
    split; [exact Hlast |]. exists rc. split; [exact Hstored |]. right. now split.
  - match goal with
    | |- exists err r s' evs, Ok ?p ?st = _ /\ _ =>
        exists (fst p), (snd p), st, (evs1 ++ [EvCall rc "execute_kw" a])%list
    end.
    split; [now rewrite <- surjective_pairing |].
    split; [exact Hcfg |]. split; [simpl; lia |].
    split; [simpl; now rewrite app_nil_r, Htr, app_assoc |].
    destruct (Hcalls (EvCall rc "execute_kw" a) eq_refl) as [-> Hlast].
    split; [exact Hlast |]. exists rc. split; [exact Hstored | now left].
Qed.
(** X11. No call changes the settings of the client: after executeRPC the
    URL, the database, the user name, the password, the expiry duration
    and the transport settings are the ones before it, whatever it
    returns; and it always returns. *)
Theorem executeRPC_keeps_config (env : Env) (model method : string)
    (args : option (list any)) (options : gmap string any) (reply : any) (s : State) :
  exists err r s',
    executeRPC env model method args options reply s = Ok (err, r) s'
    /\ sameConfig (client s) (client s').
Proof.
  destruct (executeRPC_effect env model method args options reply s)
    as (err & r & s' & evs & Hrun & Hcfg & _).
  now exists err, r, s'.
Qed.

(** X12. What executeRPC sends.  It starts at most one call of execute_kw:
    none when the connection fails, in which case an error is returned;
    otherwise exactly one, after everything that getConnection does, on
    the handle that the client holds, with the seven arguments database,
    uid, password, model, method, positional arguments and keyword
    arguments, the uid being the one of the session.  When executeRPC
    returns, that call has completed, unless the context was taken first:
    then the call may be left in flight, and the error of the context is
    what is returned. *)
Theorem executeRPC_wire (env : Env) (model method : string)
    (args : option (list any)) (options : gmap string any) (reply : any) (s : State) :
  exists err r s' evs,
    executeRPC env model method args options reply s = Ok (err, r) s'
    /\ trace s' = (trace s ++ evs)%list
    /\ match executeCalls evs with
       | [] => err <> None
       | [ev] =>
           last evs = Some ev
           /\ exists c,
                rpcClient (client s') = Some c
                /\ let a := ASlice (Some [AString (db (client s)); AInt (uid (client s'));
                                          AString (password (client s)); AString model;
                                          AString method; ASlice args; AMap options]) in
                   (ev = EvCall c "execute_kw" a
                    \/ (ev = EvCallInFlight c "execute_kw" a /\ err <> None))
       | _ => False
       end.
Proof.
  destruct (executeRPC_effect env model method args options reply s)
    as (err & r & s' & evs & Hrun & _ & _ & Htr & Hev).
  now exists err, r, s', evs.
Qed.
Lemma executeRPC_cancelled (env : Env) (model method : string)
    (args : option (list any)) (options : gmap string any) (reply : any)
    (s : State) (e : error) :
  ctxErr env (clock s) = Some e ->
  executeRPC env model method args options reply s = Ok (Some e, reply) (interact [] s).
Proof.
  intros Hctx.
  now rewrite (executeRPC_run env model method args options reply s _ _ _ _
                 (getConnection_cancelled env s e Hctx)).
Qed.

(** X14. Under a context that is already done, no helper asks anything of
    the server: each returns the error of the context with the zero value
    of its result, and the trace is the one before the call. *)
Theorem cancelled_context_no_contact (env : Env) (formatV : any -> string)
    (model : Model) (method : string) (domain : Domain) (ids : option (list Z))
    (id : Z) (fields : Fields) (data : Data) (datas : option (list Data))
    (args : option (list any)) (kwargs : gmap string any)
    (options : list (option Options)) (s : State) (e : error) :
  ctxErr env (clock s) = Some e ->
  len ids <> 0 ->
  len datas <> 0 ->
  let s' := interact [] s in
  trace s' = trace s
  /\ Search env model domain options s = Ok (None, Some e) s'
  /\ SearchOne env formatV model domain options s = Ok (0, Some e) s'
  /\ Read env model ids fields options s = Ok (None, Some e) s'
  /\ ReadOne env formatV model id fields options s = Ok (None, Some e) s'
  /\ CreateOne env model data options s = Ok (0, Some e) s'
  /\ Create env model datas options s = Ok (None, Some e) s'
  /\ Update env model ids data options s = Ok (false, Some e) s'
  /\ Delete env model ids options s = Ok (false, Some e) s'
  /\ CallOdoo env model method args kwargs s = Ok (ANil, Some e) s'.
Proof.
  intros Hctx Hids Hdatas s'.
  apply Z.eqb_neq in Hids, Hdatas.
  assert (Hread : Read env model ids fields options s = Ok (None, Some e) s').
  { unfold Read. rewrite Hids. unfold mbind, M_bind.
    now rewrite (executeRPC_cancelled env _ _ _ _ _ s e Hctx). }
  split; [apply app_nil_r |].
  repeat split.
  - unfold Search, mbind, M_bind. now rewrite (executeRPC_cancelled env _ _ _ _ _ s e Hctx).
  - unfold SearchOne, mbind, M_bind.
    now rewrite (executeRPC_cancelled env _ _ _ _ _ s e Hctx).
  - exact Hread.
  - unfold ReadOne, Read. simpl. unfold mbind, M_bind.
    now rewrite (executeRPC_cancelled env _ _ _ _ _ s e Hctx).
  - unfold CreateOne, mbind, M_bind.
    now rewrite (executeRPC_cancelled env _ _ _ _ _ s e Hctx).
  - unfold Create. rewrite Hdatas. unfold mbind, M_bind.
    now rewrite (executeRPC_cancelled env _ _ _ _ _ s e Hctx).
  - unfold Update. rewrite Hids. unfold mbind, M_bind.
    now rewrite (executeRPC_cancelled env _ _ _ _ _ s e Hctx).
  - unfold Delete. rewrite Hids. unfold mbind, M_bind.
    now rewrite (executeRPC_cancelled env _ _ _ _ _ s e Hctx).
  - now rewrite (CallOdoo_run env model method args kwargs s _ _ _ _
                   (getConnection_cancelled env s e Hctx)).
Qed.

Lemma cancelled_context_no_contact_witness :
  SearchOne cancelledEnv (fun _ => "") "res.partner" None [] (startWith loggedInClient)
  = Ok (0, Some (ESentinel ContextCanceled)) (interact [] (startWith loggedInClient)).
Proof.
  apply (cancelled_context_no_contact cancelledEnv (fun _ => "") "res.partner" "read"
           None (Some [1]) 1 None ∅ (Some [∅]) None ∅ [] (startWith loggedInClient)
           (ESentinel ContextCanceled)); [reflexivity | discriminate | discriminate].
Defined.

(** X16. CallOdoo, which the source writes out on its own, does what
    executeRPC does with a reply variable that starts as nil: the same
    interactions with the server, the same final state and the same
    error.  Its result is the reply when there is no error, and nil
    whenever there is one, also when the call had decoded a reply before
    the select took the context. *)
Theorem CallOdoo_agrees_with_executeRPC (env : Env) (model : Model) (method : string)
    (args : option (list any)) (options : gmap string any) (s : State) :
  CallOdoo env model method args options s =
  match executeRPC env model method args options ANil s with
  | Ok (None, r) s' => Ok (r, None) s'
  | Ok (Some e, _) s' => Ok (ANil, Some e) s'
  | Panic => Panic
  end.
Proof.
  destruct (getConnection_cases env s) as (u & rc & err & s1 & Hconn & _).
  rewrite (CallOdoo_run env model method args options s _ _ _ _ Hconn),
          (executeRPC_run env model method args options ANil s _ _ _ _ Hconn).
  destruct err as [e|]; [reflexivity |]. destruct rc as [rc|]; [| reflexivity].
  cbv zeta. destruct (selectTaken env _); [now destruct (callDone env _) |].
  destruct (call env (clock s1) rc _ _) as [e|v]; [| reflexivity].
  rewrite parseOdooRPCError_unfold. cbv zeta.
  destruct (isInvalidModelMessage _); [| destruct (isInvalidMethodMessage _)]; reflexivity.
Qed.
(** ** Further properties of the typed helpers *)

Lemma Read_total (env : Env) (model : Model) (ids : option (list Z)) (fields : Fields)
    (options : list (option Options)) (s : State) :
  exists records err s', Read env model ids fields options s = Ok (records, err) s'.
Proof.
  unfold Read. destruct (len ids =? 0); [now eexists _, _, _ |].
  destruct (executeRPC_total env model "read"
              (Some [AInts ids; AStrings (Fields_ToRPC fields)])
              (parseOptions options) (AMaps None) s) as (err & r & s' & H).
  unfold mbind, M_bind. rewrite H. destruct err; now eexists _, _, _.
Qed.

(** X17. SearchOne always returns, without reading past the end of the
    answer: the error of the call when it fails; the first id of the
    answer, with a nil error, when the answer is not empty; id 0 and an
    error that wraps ErrRecordNotFound when the answer is empty. *)
Theorem SearchOne_result (env : Env) (formatV : any -> string) (model : Model)
    (domain : Domain) (options : list (option Options)) (s : State) :
  exists callErr reply s',
    executeRPC env model "search" (Some [ASlice (Domain_ToRPC domain)])
      (Options_ToRPC (Some (searchOneOptions options))) (AInts None) s
    = Ok (callErr, reply) s'
    /\ match callErr, replyInts reply with
       | Some e, _ => SearchOne env formatV model domain options s = Ok (0, Some e) s'
       | None, Some (id0 :: _) =>
           SearchOne env formatV model domain options s = Ok (id0, None) s'
       | None, _ =>
           exists e, SearchOne env formatV model domain options s = Ok (0, Some e) s'
                     /\ errorsIs e ErrRecordNotFound = true
       end.
Proof.
  destruct (executeRPC_total env model "search" (Some [ASlice (Domain_ToRPC domain)])
              (Options_ToRPC (Some (searchOneOptions options))) (AInts None) s)
    as (err & r & s' & H).
  exists err, r, s'. split; [exact H |].
  unfold SearchOne. cbv zeta. unfold mbind, M_bind. rewrite H.
  destruct err as [e|]; [reflexivity |].
  destruct (replyInts r) as [[|id0 l]|];
    first [reflexivity | eexists; split; reflexivity].
Qed.

(** X18. ReadOne always returns, without reading past the end of the
    answer: the error of Read when it fails; the first record, with a nil
    error, when there is one; nil and an error that wraps
    ErrRecordNotFound when Read gives no record. *)
Theorem ReadOne_result (env : Env) (formatV : any -> string) (model : Model) (id : Z)
    (fields : Fields) (options : list (option Options)) (s : State) :
  exists records err s',
    Read env model (Some [id]) fields options s = Ok (records, err) s'
    /\ match err, records with
       | Some e, _ => ReadOne env formatV model id fields options s = Ok (None, Some e) s'
       | None, Some (r :: _) =>
           ReadOne env formatV model id fields options s = Ok (Some r, None) s'
       | None, _ =>
           exists e, ReadOne env formatV model id fields options s = Ok (None, Some e) s'
                     /\ errorsIs e ErrRecordNotFound = true
       end.
Proof.
  destruct (Read_total env model (Some [id]) fields options s) as (records & err & s' & H).
  exists records, err, s'. split; [exact H |].
  unfold ReadOne. unfold mbind, M_bind. rewrite H.
  destruct err as [e|]; [reflexivity |].
  destruct records as [[|r l]|];
    first [reflexivity | eexists; split; reflexivity].
Qed.

(** X19. CreateOne always returns: the error of the call when it fails; the
    first id of the answer, with a nil error, when the answer is not
    empty; id 0 and an error that wraps ErrInvalidResponse when the
    server gives no id. *)
Theorem CreateOne_result (env : Env) (model : Model) (data : Data)
    (options : list (option Options)) (s : State) :
  exists callErr reply s',
    executeRPC env model "create" (Some [AMaps (Some [Data_ToRPC data])])
      (parseOptions options) (AInts None) s
    = Ok (callErr, reply) s'
    /\ match callErr, replyInts reply with
       | Some e, _ => CreateOne env model data options s = Ok (0, Some e) s'
       | None, Some (id0 :: _) => CreateOne env model data options s = Ok (id0, None) s'
       | None, _ =>
           exists e, CreateOne env model data options s = Ok (0, Some e) s'
                     /\ errorsIs e ErrInvalidResponse = true
       end.
Proof.
  destruct (executeRPC_total env model "create" (Some [AMaps (Some [Data_ToRPC data])])
              (parseOptions options) (AInts None) s) as (err & r & s' & H).
  exists err, r, s'. split; [exact H |].
  unfold CreateOne. unfold mbind, M_bind. rewrite H.
  destruct err as [e|]; [reflexivity |].
  destruct (replyInts r) as [[|id0 l]|];
    first [reflexivity | eexists; split; reflexivity].
Qed.

(** X20. The keyword arguments that SearchOne sends: under every key but
    limit, what the first of the given options gives; under limit the
    number 1, unless the Extra of those options has an entry limit, which
    is sent in its place. *)
Theorem SearchOne_limit (options : list (option Options)) (k : string) :
  let sent := Options_ToRPC (Some (searchOneOptions options)) in
  sent !! "limit"
  = match options with
    | Some o :: _ =>
        match Extra o !! "limit" with
        | Some v => Some v
        | None => Some (AInt 1)
        end
    | _ => Some (AInt 1)
    end
  /\ (k <> "limit" -> sent !! k = parseOptions options !! k).
Proof.
  intros sent. unfold sent. split.
  - rewrite Options_ToRPC_lookup_key.
    destruct options as [|[o|] rest]; simpl; try reflexivity;
      now destruct (Extra o !! "limit").
  - intros Hk. rewrite Options_ToRPC_lookup_key.
    destruct options as [|[o|] rest]; unfold searchOneOptions, parseOptions;
      cbn [Extra Order Offset Limit Context].
    + rewrite !lookup_empty, map_size_empty. simpl.
      repeat case_decide; try reflexivity; congruence.
    + rewrite Options_ToRPC_lookup_key. destruct (Extra o !! k); [reflexivity |].
      repeat case_decide; try reflexivity; congruence.
    + rewrite !lookup_empty, map_size_empty. simpl.
      repeat case_decide; try reflexivity; congruence.
Qed.

Lemma runTasks_cancelled (env : Env) (model : Model) (parsedOptions : gmap string any)
    (e : error) (tasks : list (Z * Data)) (s : State) :
  (forall n, (clock s <= n)%nat -> ctxErr env n = Some e) ->
  exists s',
    runTasks env model parsedOptions tasks s = Ok (map (fun t => (t.1, Some e)) tasks) s'
    /\ trace s' = trace s
    /\ client s' = client s
    /\ (clock s <= clock s')%nat.
Proof.
  revert s. induction tasks as [|[id data] rest IH]; intros s Hctx; simpl.
  - exists s. repeat split. lia.
  - destruct (IH (interact [] s)) as (s' & Hrun & Htr & Hcl & Hclk).
    { intros n Hn. apply Hctx. simpl in Hn. lia. }
    exists s'. unfold updateTask, mbind, M_bind.
    rewrite (executeRPC_cancelled env _ _ _ _ _ s e (Hctx _ (le_n _))).
    unfold mbind, M_bind in Hrun. simpl. rewrite Hrun.
    split; [reflexivity |]. split; [now rewrite Htr; apply app_nil_r |].
    split; [exact Hcl |]. simpl in Hclk. lia.
Qed.

(** X21. Under a context that is done before the batch starts and stays so,
    UpdateMultiple asks nothing of the server for any record: every task
    ends with the error of the context, and the batch returns the nil
    mapping and that error, with the trace and the client as they were. *)
Theorem UpdateMultiple_cancelled_from_start (env : Env) (model : Model)
    (idDataMap : gmap Z Data) (options : list (option Options))
    (order : list (Z * Data)) (s : State) (e : error) :
  (forall n, (clock s <= n)%nat -> ctxErr env n = Some e) ->
  idDataMap <> ∅ ->
  exists s',
    UpdateMultiple env model idDataMap options order s = Ok (None, Some e) s'
    /\ runTasks env model (parseOptions options) order s
       = Ok (map (fun t => (t.1, Some e)) order) s'
    /\ trace s' = trace s
    /\ client s' = client s.
Proof.
  intros Hctx Hne.
  destruct (runTasks_cancelled env model (parseOptions options) e order s Hctx)
    as (s' & Hrun & Htr & Hcl & Hclk).
  exists s'. split; [| now repeat split].
  assert (Hsize : (Z.of_nat (size idDataMap) =? 0) = false).
  { apply Z.eqb_neq. intros H. apply Hne, map_size_empty_iff. lia. }
  unfold UpdateMultiple. rewrite Hsize. unfold mbind, M_bind. rewrite Hrun.
  unfold ctxErrNow. now rewrite (Hctx _ Hclk).
Qed.

Lemma UpdateMultiple_cancelled_from_start_witness :
  exists s',
    UpdateMultiple cancelledEnv "res.partner" {[ 1 := (∅ : Data); 2 := (∅ : Data) ]} []
      [(1, ∅); (2, ∅)] (startWith loggedInClient)
    = Ok (None, Some (ESentinel ContextCanceled)) s'
    /\ trace s' = [].
Proof.
  destruct (UpdateMultiple_cancelled_from_start cancelledEnv "res.partner"
              {[ 1 := (∅ : Data); 2 := (∅ : Data) ]} [] [(1, ∅); (2, ∅)]
              (startWith loggedInClient) (ESentinel ContextCanceled))
    as (s' & Hrun & _ & Htr & _).
  - intros n _. reflexivity.
  - intros E. apply (f_equal (lookup 1)) in E. vm_compute in E. discriminate.
  - exists s'. split; [exact Hrun | exact Htr].
Defined.
